(** * Workspace join, reference resolution and copy flow of the collaborative IDE

    A shallow embedding of [src/atoms/firebaseAtoms.ts],
    [src/pages/CopyFilePage.tsx] and [src/components/settings/SettingsModal.tsx].

    The real-time document store is an in-memory tree of JSON values addressed
    by paths, the jotai atoms are the fields of one record, and every write
    function of an atom is a computation in a small state-and-exception monad
    that also logs the effects it issues (store operations, navigation,
    alerts, identity-profile updates). *)

From Stdlib Require Import Ascii String QArith Qround.
From stdpp Require Import gmap strings list fin_maps pretty.

Local Open Scope string_scope.
Local Open Scope list_scope.

(** ** JSON values held by the document store *)

(** Snapshot values ([snap.val()]): null, booleans, numbers, strings and
    objects.  Numbers are integers here; no function below does arithmetic on
    a stored number, only its truthiness is observed.  An array that the store
    hands back is its index-keyed object: property access, truthiness and
    object rest/spread treat both alike. *)
#[warnings="-register-all"]
Inductive json : Type :=
  | JNull
  | JBool (b : bool)
  | JNum (n : Z)
  | JStr (s : string)
  | JObj (m : gmap string json).

(** JavaScript truthiness ([!!v]). *)
Definition truthy (v : json) : bool :=
  match v with
  | JNull => false
  | JBool b => b
  | JNum n => negb (n =? 0)%Z
  | JStr s => negb (String.eqb s "")
  | JObj _ => true
  end.

(** [v?.k]: the property [k] of a value; [JNull] stands for both [null] and
    [undefined], which every use below only tests for truthiness or compares
    with a string. *)
Definition prop (k : string) (v : json) : json :=
  match v with
  | JObj m => default JNull (m !! k)
  | _ => JNull
  end.

(** [v === s] for a string [s]. *)
Definition is_str (s : string) (v : json) : bool :=
  match v with
  | JStr t => String.eqb t s
  | _ => false
  end.

(** Own enumerable properties of a value as an object (what a spread or a
    rest pattern copies): the fields of an object, the indexed characters of
    a string, nothing for the other primitives. *)
Fixpoint chars_from (i : nat) (s : string) : gmap string json :=
  match s with
  | EmptyString => ∅
  | String c s' => <[pretty i := JStr (String c EmptyString)]> (chars_from (S i) s')
  end.

Definition own_props (v : json) : gmap string json :=
  match v with
  | JObj m => m
  | JStr s => chars_from 0 s
  | _ => ∅
  end.

(** ** References: locations in the store *)

(** A reference is the list of its path segments from the root. *)
Definition Reference := list string.

Definition slash : ascii := "/"%char.

(** Pieces of a string between slashes, empty pieces included. *)
Fixpoint pieces (s : string) : list string :=
  match s with
  | EmptyString => [EmptyString]
  | String c s' =>
      if Ascii.eqb c slash then EmptyString :: pieces s'
      else match pieces s' with
           | p :: ps => String c p :: ps
           | [] => [String c EmptyString]
           end
  end.

(** A path string denotes its non-empty pieces. *)
Definition path_of_string (s : string) : list string :=
  filter (λ p, p ≠ EmptyString) (pieces s).

(** [firebase.database().ref()] *)
Definition root : Reference := [].
(** [ref.child(p)], and [database.ref(p)] from the root, for a path string
    the store accepts.  The store's client throws on a path string that
    holds one of the characters [valid_path] excludes; that check is not part
    of this function, and the statements about a reference resolved from an
    identifier take the identifier to be a valid path. *)
Definition child (r : Reference) (p : string) : Reference := r ++ path_of_string p.
(** [ref.key]: the last segment, [null] at the root. *)
Definition key (r : Reference) : option string := last r.

(** Reading and writing the tree along a path.  The tree keeps a value as it
    is written; the store itself keeps no empty object, so an object written
    as [{}] is not read back from it.  The statements about what the store
    holds after a write are about values that are not empty objects. *)
Fixpoint get_path (p : list string) (t : json) : json :=
  match p with
  | [] => t
  | k :: p' => get_path p' (prop k t)
  end.

Definition fields (t : json) : gmap string json :=
  match t with
  | JObj m => m
  | _ => ∅
  end.

Fixpoint set_path (p : list string) (v : json) (t : json) : json :=
  match p with
  | [] => v
  | k :: p' => JObj (<[k := set_path p' v (prop k t)]> (fields t))
  end.

(** [ref.update(obj)]: every key of the literal is a path below the
    reference, set to its value, in the literal's order. *)
Definition apply_update (r : Reference) (upd : list (string * json)) (t : json) : json :=
  foldl (λ acc kv, set_path (r ++ path_of_string kv.1) kv.2 acc) t upd.

(** ** Permissions, users, errors *)

Inductive Permission : Type := OWNER | READ_WRITE | READ | PRIVATE.

Definition permission_string (p : Permission) : string :=
  match p with
  | OWNER => "OWNER"
  | READ_WRITE => "READ_WRITE"
  | READ => "READ"
  | PRIVATE => "PRIVATE"
  end.

(** A thrown value: [new Error(message)] has no code, a rejection of the
    store carries one (for instance ["PERMISSION_DENIED"]). *)
Record JsError : Type := { code : option string; message : string }.

Definition Error (msg : string) : JsError := {| code := None; message := msg |}.

Definition is_permission_denied (e : JsError) : bool :=
  match code e with
  | Some c => String.eqb c "PERMISSION_DENIED"
  | None => false
  end.

(** The identity provider's user object. *)
Record User : Type := { uid : string; displayName : option string }.

(** [!!s] for a [string | null]. *)
Definition truthy_string (s : option string) : bool :=
  match s with
  | Some t => negb (String.eqb t "")
  | None => false
  end.

(** The value of [baseFileIdAtom]. *)
Record FileId : Type := { id : string; isNewFile : bool }.

(** The payload of [fileIdAtom]'s write function. *)
Record Payload : Type := { newId : option string; isNewFile_flag : option bool }.

(** ** The world: atoms, store, environment and the log of effects *)

Inductive Effect : Type :=
  | StoreOnce (r : Reference)
  | StoreUpdate (r : Reference) (upd : list (string * json))
  | StoreSet (r : Reference) (v : json)
  | Navigate (to : string) (replace : bool)
  | Alert (msg : string)
  | UpdateProfile (u : User) (name : option string).

(** A read of the store. *)
Definition is_read (e : Effect) : bool :=
  match e with StoreOnce _ => true | _ => false end.

(** A write to the store. *)
Definition is_write (e : Effect) : bool :=
  match e with StoreUpdate _ _ | StoreSet _ _ => true | _ => false end.

Record Atoms : Type := {
  baseFirebaseUserAtom : option User;
  userNameAtom : option string;
  baseFileIdAtom : option FileId;
  firebaseRefAtom : option Reference;
  userRefAtom : option Reference;
  actualUserPermissionAtom : option Permission;
  defaultPermissionAtom : option Permission;
}.

Record World : Type := {
  atoms : Atoms;
  (** the document tree, from the root of the database *)
  store : json;
  (** the store's answer to a read or a write at a location: a rejection, or none *)
  readError : Reference → option JsError;
  writeError : Reference → option JsError;
  (** how many keys [push] has handed out *)
  pushed : nat;
  (** [window.location.search] *)
  search : string;
  (** [permissionDenied] of the copy page *)
  permissionDenied : bool;
  (** effects issued so far, oldest first *)
  trace : list Effect;
}.

Definition with_atoms (f : Atoms → Atoms) (w : World) : World :=
  {| atoms := f (atoms w); store := store w; readError := readError w;
     writeError := writeError w; pushed := pushed w; search := search w;
     permissionDenied := permissionDenied w; trace := trace w |}.

Definition with_store (f : json → json) (w : World) : World :=
  {| atoms := atoms w; store := f (store w); readError := readError w;
     writeError := writeError w; pushed := pushed w; search := search w;
     permissionDenied := permissionDenied w; trace := trace w |}.

Definition with_pushed (n : nat) (w : World) : World :=
  {| atoms := atoms w; store := store w; readError := readError w;
     writeError := writeError w; pushed := n; search := search w;
     permissionDenied := permissionDenied w; trace := trace w |}.

Definition with_permissionDenied (b : bool) (w : World) : World :=
  {| atoms := atoms w; store := store w; readError := readError w;
     writeError := writeError w; pushed := pushed w; search := search w;
     permissionDenied := b; trace := trace w |}.

Definition log (e : Effect) (w : World) : World :=
  {| atoms := atoms w; store := store w; readError := readError w;
     writeError := writeError w; pushed := pushed w; search := search w;
     permissionDenied := permissionDenied w; trace := trace w ++ [e] |}.

Definition put_baseFirebaseUserAtom (v : option User) (a : Atoms) : Atoms :=
  {| baseFirebaseUserAtom := v; userNameAtom := userNameAtom a;
     baseFileIdAtom := baseFileIdAtom a; firebaseRefAtom := firebaseRefAtom a;
     userRefAtom := userRefAtom a;
     actualUserPermissionAtom := actualUserPermissionAtom a;
     defaultPermissionAtom := defaultPermissionAtom a |}.

Definition put_userNameAtom (v : option string) (a : Atoms) : Atoms :=
  {| baseFirebaseUserAtom := baseFirebaseUserAtom a; userNameAtom := v;
     baseFileIdAtom := baseFileIdAtom a; firebaseRefAtom := firebaseRefAtom a;
     userRefAtom := userRefAtom a;
     actualUserPermissionAtom := actualUserPermissionAtom a;
     defaultPermissionAtom := defaultPermissionAtom a |}.

Definition put_baseFileIdAtom (v : option FileId) (a : Atoms) : Atoms :=
  {| baseFirebaseUserAtom := baseFirebaseUserAtom a; userNameAtom := userNameAtom a;
     baseFileIdAtom := v; firebaseRefAtom := firebaseRefAtom a;
     userRefAtom := userRefAtom a;
     actualUserPermissionAtom := actualUserPermissionAtom a;
     defaultPermissionAtom := defaultPermissionAtom a |}.

Definition put_firebaseRefAtom (v : option Reference) (a : Atoms) : Atoms :=
  {| baseFirebaseUserAtom := baseFirebaseUserAtom a; userNameAtom := userNameAtom a;
     baseFileIdAtom := baseFileIdAtom a; firebaseRefAtom := v;
     userRefAtom := userRefAtom a;
     actualUserPermissionAtom := actualUserPermissionAtom a;
     defaultPermissionAtom := defaultPermissionAtom a |}.

(** ** The monad of write functions and effects *)

Inductive Outcome (A : Type) : Type :=
  | Returned (a : A)
  | Thrown (e : JsError).
Arguments Returned {A} a.
Arguments Thrown {A} e.

Definition M (A : Type) : Type := World → Outcome A * World.

#[global] Instance M_ret : MRet M := λ A a w, (Returned a, w).
#[global] Instance M_bind : MBind M := λ A B f m w,
  match m w with
  | (Returned a, w') => f a w'
  | (Thrown e, w') => (Thrown e, w')
  end.

(** [throw e] *)
Definition throw {A} (e : JsError) : M A := λ w, (Thrown e, w).

(** [try { m } catch (e) { h e }], also [promise.catch(h)] *)
Definition catch {A} (m : M A) (h : JsError → M A) : M A := λ w,
  match m w with
  | (Returned a, w') => (Returned a, w')
  | (Thrown e, w') => h e w'
  end.

(** [get(atom)] and [set(atom, v)] *)
Definition get {A} (atom : Atoms → A) : M A := λ w, (Returned (atom (atoms w)), w).
Definition set_atom (put : Atoms → Atoms) : M unit := λ w, (Returned tt, with_atoms put w).

Definition emit (e : Effect) : M unit := λ w, (Returned tt, log e w).

(** [ref.once('value')], awaited: the value at the location, or the store's rejection. *)
Definition ref_once (r : Reference) : M json := λ w,
  match readError w r with
  | Some e => (Thrown e, log (StoreOnce r) w)
  | None => (Returned (get_path r (store w)), log (StoreOnce r) w)
  end.

(** [ref.update(obj)], awaited. *)
Definition ref_update (r : Reference) (upd : list (string * json)) : M unit := λ w,
  match writeError w r with
  | Some e => (Thrown e, log (StoreUpdate r upd) w)
  | None => (Returned tt, with_store (apply_update r upd) (log (StoreUpdate r upd) w))
  end.

(** [ref.set(v)], awaited. *)
Definition ref_set (r : Reference) (v : json) : M unit := λ w,
  match writeError w r with
  | Some e => (Thrown e, log (StoreSet r v) w)
  | None => (Returned tt, with_store (set_path r v) (log (StoreSet r v) w))
  end.

(** [Promise.all(ms)]: every computation is started; the result is the list
    of values, or a rejection.  [Promise.all] rejects with the rejection that
    arrives first; here the rejections arrive in list order, and the
    statements on a rejected [Promise.all] are made so that they hold
    whichever rejection arrives first. *)
Fixpoint promise_all {A} (ms : list (M A)) : M (list A) :=
  match ms with
  | [] => mret []
  | m :: ms' => λ w,
      let '(o, w1) := m w in
      let '(os, w2) := promise_all ms' w1 in
      (match o, os with
       | Returned a, Returned l => Returned (a :: l)
       | Thrown e, _ => Thrown e
       | Returned _, Thrown e => Thrown e
       end, w2)
  end.

(** ** src/atoms/firebaseAtoms.ts *)

Section FirebaseAtoms.

(** [scripts/animals], [scripts/colorFromUserId] and the store's generator of
    unique keys are outside this development: the list of names, the color
    function and the sequence of keys [push] hands out are parameters. *)
Variable animals : list string.
Variable colorFromUserId : string → string.
Variable pushKey : nat → string.

(** [ref.push()] without a value: a new child location, nothing is written. *)
Definition ref_push (r : Reference) : M Reference := λ w,
  (Returned (r ++ [pushKey (pushed w)]), with_pushed (S (pushed w)) w).

(** [ref.key!]; the references this is applied to are never the root. *)
Definition key_nonnull (r : Reference) : string := default EmptyString (key r).

(** [s.substr(1)], [s.slice(1)] *)
Definition drop_first (s : string) : string :=
  match s with
  | EmptyString => EmptyString
  | String _ t => t
  end.

(** [Math.floor(len * random)] for a draw [random] of [Math.random()], a
    number of the interval from 0 (included) to 1 (excluded), taken as a rational. *)
Definition random_index (len : nat) (random : Q) : nat :=
  Z.to_nat (Qfloor (inject_Z (Z.of_nat len) * random)).

(** [animals[i]] inside a string concatenation: out of range is [undefined]. *)
Definition animal_at (i : nat) : string := nth i animals "undefined".

(** Write function of [firebaseUserAtom]. *)
Definition firebaseUserAtom_write (random : Q) (user : option User) : M unit :=
  set_atom (put_baseFirebaseUserAtom user);;
  match user with
  | Some u =>
      let name := "Anonymous " +:+ animal_at (random_index (length animals) random) in
      if negb (truthy_string (displayName u)) then
        emit (UpdateProfile u (Some name));;
        set_atom (put_userNameAtom (Some name))
      else
        set_atom (put_userNameAtom (displayName u))
  | None => set_atom (put_userNameAtom None)
  end.

(** [get(baseFileIdAtom)?.id === newId] *)
Definition same_id (cur : option FileId) (newId : option string) : bool :=
  match cur, newId with
  | Some f, Some s => String.eqb (id f) s
  | _, _ => false
  end.

(** Write function of [fileIdAtom]. *)
Definition fileIdAtom_write (payload : option Payload) : M unit :=
  match payload with
  | None =>
      set_atom (put_baseFileIdAtom None);;
      set_atom (put_firebaseRefAtom None)
  | Some p =>
      cur ← get baseFileIdAtom;
      if same_id cur (newId p) && truthy_string (newId p) then
        (* target file already loaded, ignore *)
        mret tt
      else
        ref ← (if truthy_string (newId p)
               then mret (child root ("-" +:+ default EmptyString (newId p)))
               else ref_push root);
        set_atom (put_baseFileIdAtom
          (Some {| id := key_nonnull ref;
                   isNewFile := default false (isNewFile_flag p) |}));;
        (if default false (isNewFile_flag p) then
           loc ← (λ w, (Returned (search w), w));
           emit (Navigate ("/" +:+ drop_first (key_nonnull ref) +:+ loc) true)
         else mret tt);;
        set_atom (put_firebaseRefAtom (Some ref))
  end.

(** Read function of [authenticatedFirebaseRefAtom]. *)
Definition authenticatedFirebaseRefAtom (a : Atoms) : option Reference :=
  let permission := actualUserPermissionAtom a in
  let ref := firebaseRefAtom a in
  match permission with
  | Some OWNER | Some READ_WRITE | Some READ => ref
  | _ => None
  end.

(** Read function of [authenticatedUserRefAtom]. *)
Definition authenticatedUserRefAtom (a : Atoms) : option Reference :=
  let permission := actualUserPermissionAtom a in
  let ref := userRefAtom a in
  match permission with
  | Some OWNER | Some READ_WRITE | Some READ => ref
  | _ => None
  end.

Definition ref_must_be_set : string :=
  "ref must be set before workspace can be joined".
Definition userRef_must_be_set : string :=
  "userRef (and userRef.key) must be set before workspace can be joined".
Definition name_must_be_set : string :=
  "user name must be set before workspace can be joined".
Definition permission_must_be_set : string :=
  "permission must be set before workspace can be joined".

(** The guards both join operations start with: the workspace reference, the
    user reference with its key, and the user name. *)
Definition join_preconditions : M (Reference * Reference * string * string) :=
  ref ← get firebaseRefAtom;
  userRef ← get userRefAtom;
  name ← get userNameAtom;
  match ref with
  | None => throw (Error ref_must_be_set)
  | Some ref =>
      match userRef with
      | None => throw (Error userRef_must_be_set)
      | Some userRef =>
          if negb (truthy_string (key userRef)) then throw (Error userRef_must_be_set)
          else if negb (truthy_string name) then throw (Error name_must_be_set)
          else mret (ref, userRef, key_nonnull userRef, default EmptyString name)
      end
  end.

(** The presence record join-as-owner writes. *)
Definition owner_record (name userKey : string) : json :=
  JObj (<["name" := JStr name]>
       (<["color" := JStr (colorFromUserId userKey)]>
       (<["permission" := JStr (permission_string OWNER)]> ∅))).

(** Write function of [joinNewWorkspaceAsOwnerAtom]. *)
Definition joinNewWorkspaceAsOwnerAtom : M unit :=
  '(ref, userRef, userKey, name) ← join_preconditions;
  ref_update ref
    [ ("users/" +:+ userKey, owner_record name userKey);
      ("settings/defaultPermission", JStr (permission_string READ_WRITE)) ].

(** The handler of the point-in-time read in join-existing. *)
Definition on_snapshot (permission : Permission) (userRef : Reference)
    (userKey name : string) (snap : json) : M unit :=
  if match permission with PRIVATE => true | _ => false end
     && negb (truthy (prop "permission" snap)) then
    (* file is private *)
    mret tt
  else if negb (truthy (prop "name" snap)) then
    (* first time on this doc, need to add to user list *)
    ref_update userRef
      [ ("name", JStr name); ("color", JStr (colorFromUserId userKey)) ]
  else if negb (is_str name (prop "name" snap)) then
    (* update name as necessary *)
    ref_set (child userRef "name") (JStr name)
  else mret tt.

(** Write function of [joinExistingWorkspaceWithDefaultPermissionAtom]. *)
Definition joinExistingWorkspaceWithDefaultPermissionAtom : M unit :=
  permission ← get defaultPermissionAtom;
  '(ref, userRef, userKey, name) ← join_preconditions;
  match permission with
  | None => throw (Error permission_must_be_set)
  | Some permission =>
      catch
        (snap ← ref_once userRef;
         on_snapshot permission userRef userKey name snap)
        (λ e, if is_permission_denied e then
                (* file is private *)
                mret tt
              else throw e)
  end.

End FirebaseAtoms.

(** ** src/pages/CopyFilePage.tsx *)

Section CopyFilePage.

Variable pushKey : nat → string.

Definition keysToCopy : list string :=
  ["editor-cpp"; "editor-java"; "editor-py"; "settings"; "input"].

(** [const { users, defaultPermission, ...toKeep } = v || {}] *)
Definition toKeep (v : json) : json :=
  JObj (delete "users" (delete "defaultPermission"
          (own_props (if truthy v then v else JObj ∅)))).

(** The object the [forEach] fills: one entry per key, in the order of the keys. *)
Definition updateObject (data : list json) : json :=
  JObj (foldl (λ acc kv, <[kv.1 := toKeep kv.2]> acc) ∅ (zip keysToCopy data)).

(** The effect of the page, run with the [fileId] of the route.  The length
    of an identifier counts its characters, one code unit each as in the keys
    of the store. *)
Definition CopyFilePage_effect (fileId : option string) : M unit :=
  match fileId with
  | Some queryId =>
      if negb (String.length queryId =? 19)%nat then
        emit (Alert "Error: Bad URL");;
        emit (Navigate "/" true)
      else
        let oldRef := child root ("-" +:+ queryId) in
        newRef ← ref_push pushKey root;
        catch
          (data ← promise_all ((λ k, ref_once (child oldRef k)) <$> keysToCopy);
           ref_set newRef (updateObject data);;
           fileIdAtom_write pushKey
             (Some {| newId := Some (drop_first (key_nonnull newRef));
                      isNewFile_flag := Some true |}))
          (λ e, if is_permission_denied e then
                  (λ w, (Returned tt, with_permissionDenied true w))
                else
                  emit (Alert ("Failed to clone file: " +:+ message e));;
                  throw (Error (message e)))
  | None =>
      emit (Alert "Error: Bad URL");;
      emit (Navigate "/" true)
  end.

End CopyFilePage.

(** ** src/components/settings/SettingsModal.tsx *)

Module SettingsModal.

(** [WorkspaceSettings] and [Partial<WorkspaceSettings>] are objects: maps
    from field names to values. *)
Abbreviation WorkspaceSettings := (gmap string json).

Inductive Tab : Type := workspace | user | judge.

(** What the hooks hand to a render of the component. *)
Record Env : Type := {
  (** [useSettings().settings], the committed settings *)
  realWorkspaceSettings : WorkspaceSettings;
  (** [firebaseUserAtom] *)
  firebaseUser : option User;
  (** [editorModeAtomWithPersistence], its value *)
  editorModeAtom : string;
  (** [authenticatedUserRefAtom] *)
  userRef : option Reference;
}.

(** The state the component keeps between renders. *)
Record State : Type := {
  workspaceSettings : WorkspaceSettings;
  name : option string;
  editorMode : string;
  tab : Tab;
  dirtyRef : bool;
  (** [isOpen] at the last render whose effects ran, for the dependency
      array of the effect; nothing before the first render *)
  lastIsOpen : option bool;
}.

(** Calls the component makes on its props and hooks. *)
Inductive Call : Type :=
  | onClose
  | setRealWorkspaceSettings (ws : WorkspaceSettings)
  | setEditorModeAtom (mode : string)
  | updateProfile (displayName : option string)
  | setStoredName (r : Reference) (displayName : option string)
  | setUserNameAtom (displayName : option string).

(** The reducer of [useReducer]: [{ ...prev, ...next }]. *)
Definition reducer (prev next : WorkspaceSettings) : WorkspaceSettings := next ∪ prev.

(** [firebaseUser?.displayName || null] *)
Definition displayName_or_null (u : option User) : option string :=
  match u with
  | Some u => if truthy_string (displayName u) then displayName u else None
  | None => None
  end.

(** State at the first render. *)
Definition initial (env : Env) : State :=
  {| workspaceSettings := realWorkspaceSettings env; name := None;
     editorMode := "Normal"; tab := workspace; dirtyRef := false;
     lastIsOpen := None |}.

(** Body of the effect on [isOpen]. *)
Definition effect (env : Env) (isOpen : bool) (st : State) : State :=
  if isOpen then
    {| workspaceSettings := reducer (workspaceSettings st) (realWorkspaceSettings env);
       name := displayName_or_null (firebaseUser env);
       editorMode := editorModeAtom env;
       tab := workspace;
       dirtyRef := false;
       lastIsOpen := lastIsOpen st |}
  else st.

Definition remember (isOpen : bool) (st : State) : State :=
  {| workspaceSettings := workspaceSettings st; name := name st;
     editorMode := editorMode st; tab := tab st; dirtyRef := dirtyRef st;
     lastIsOpen := Some isOpen |}.

(** A render with the prop [isOpen]: the effect runs after the first render
    and after every render at which [isOpen] differs from the render before. *)
Definition render (env : Env) (isOpen : bool) (st : State) : State :=
  match lastIsOpen st with
  | Some b => if Bool.eqb b isOpen then st else remember isOpen (effect env isOpen st)
  | None => remember isOpen (effect env isOpen st)
  end.

(** [closeWithoutSaving], with the answer [confirm] would give. *)
Definition closeWithoutSaving (confirm : bool) (st : State) : list Call :=
  if dirtyRef st then
    if confirm then [onClose] else []
  else [onClose].

Definition same_name (a b : option string) : bool :=
  match a, b with
  | Some x, Some y => String.eqb x y
  | None, None => true
  | _, _ => false
  end.

(** [saveAndClose] *)
Definition saveAndClose (env : Env) (st : State) : list Call :=
  [setRealWorkspaceSettings (workspaceSettings st); setEditorModeAtom (editorMode st)]
  ++ (match firebaseUser env with
      | Some u =>
          if same_name (name st) (displayName u) then []
          else [updateProfile (name st)]
               ++ match userRef env with
                  | Some r => [setStoredName (child r "name") (name st)]
                  | None => []
                  end
               ++ [setUserNameAtom (name st)]
      | None =>
          (* [name !== undefined] holds for every name *)
          match userRef env with
          | Some r => [setStoredName (child r "name") (name st)]
          | None => []
          end
          ++ [setUserNameAtom (name st)]
      end)
  ++ [onClose].

(** [onChange] *)
Definition onChange (data : WorkspaceSettings) (st : State) : State :=
  {| workspaceSettings := reducer (workspaceSettings st) data; name := name st;
     editorMode := editorMode st; tab := tab st; dirtyRef := true;
     lastIsOpen := lastIsOpen st |}.

(** [onNameChange] of the user tab *)
Definition onNameChange (n : string) (st : State) : State :=
  {| workspaceSettings := workspaceSettings st; name := Some n;
     editorMode := editorMode st; tab := tab st; dirtyRef := true;
     lastIsOpen := lastIsOpen st |}.

(** [onEditorModeChange] of the user tab *)
Definition onEditorModeChange (mode : string) (st : State) : State :=
  {| workspaceSettings := workspaceSettings st; name := name st;
     editorMode := mode; tab := tab st; dirtyRef := true;
     lastIsOpen := lastIsOpen st |}.

(** [onClose] of the [Dialog]: the library calls it when the dialog is
    dismissed with the Escape key or a click outside of it. *)
Definition dialog_onClose (st : State) : list Call := [onClose].

Definition setTab (t : Tab) (st : State) : State :=
  {| workspaceSettings := workspaceSettings st; name := name st;
     editorMode := editorMode st; tab := t; dirtyRef := dirtyRef st;
     lastIsOpen := lastIsOpen st |}.

(** *** The modal with its parent *)

Record System : Type := {
  env : Env;
  isOpen : bool;
  comp : State;
}.

Inductive Event : Type :=
  | Open
  | Change (data : WorkspaceSettings)
  | NameChange (n : string)
  | EditorModeChange (mode : string)
  | SetTab (t : Tab)
  | CloseWithoutSaving (confirm : bool)
  | Dismiss
  | Committed (ws : WorkspaceSettings).

(** The hooks deliver new committed settings: a render with the same [isOpen]. *)
Definition with_settings (ws : WorkspaceSettings) (e : Env) : Env :=
  {| realWorkspaceSettings := ws; firebaseUser := firebaseUser e;
     editorModeAtom := editorModeAtom e; userRef := userRef e |}.

(** Modelled from the spec: the parent component that owns [isOpen] is
    outside this development; opening shows the modal, and the parent's
    [onClose] hides it, each followed by a render with the new prop. *)
Definition parent (c : Call) (s : System) : System :=
  match c with
  | onClose => {| env := env s; isOpen := false; comp := render (env s) false (comp s) |}
  | _ => s
  end.

Definition step (s : System) (e : Event) : System :=
  match e with
  | Open => {| env := env s; isOpen := true; comp := render (env s) true (comp s) |}
  | Change data => {| env := env s; isOpen := isOpen s; comp := onChange data (comp s) |}
  | NameChange n => {| env := env s; isOpen := isOpen s; comp := onNameChange n (comp s) |}
  | EditorModeChange m =>
      {| env := env s; isOpen := isOpen s; comp := onEditorModeChange m (comp s) |}
  | SetTab t => {| env := env s; isOpen := isOpen s; comp := setTab t (comp s) |}
  | CloseWithoutSaving confirm =>
      foldl (λ s c, parent c s) s (closeWithoutSaving confirm (comp s))
  | Dismiss => foldl (λ s c, parent c s) s (dialog_onClose (comp s))
  | Committed ws =>
      {| env := with_settings ws (env s); isOpen := isOpen s;
         comp := render (with_settings ws (env s)) (isOpen s) (comp s) |}
  end.

(** The component mounted closed. *)
Definition mounted (e : Env) : System :=
  {| env := e; isOpen := false; comp := render e false (initial e) |}.

Definition run (s : System) (es : list Event) : System := foldl step s es.

End SettingsModal.


(** ** Predicates used by the statements *)

(** A string with a slash in it; a key of the store has none. *)
Fixpoint has_slash (s : string) : bool :=
  match s with
  | EmptyString => false
  | String c s' => Ascii.eqb c slash || has_slash s'
  end.


(** The field [k] is absent from a stored value. *)
Definition lacks (k : string) (v : json) : Prop :=
  ∀ m, v = JObj m → m !! k = None.

(** Outcome, final world and issued effects of a computation run from a world. *)
Definition outcome {A} (m : M A) (w : World) : Outcome A := (m w).1.
Definition after {A} (m : M A) (w : World) : World := (m w).2.
Definition issued {A} (m : M A) (w : World) : list Effect :=
  drop (length (trace w)) (trace (after m w)).

(** The three preconditions of a join hold: the workspace reference, the user
    reference with its key, and a non-empty user name. *)
Record Joinable (a : Atoms) (ref userRef : Reference) (userKey name : string) : Prop := {
  joinable_ref : firebaseRefAtom a = Some ref;
  joinable_userRef : userRefAtom a = Some userRef;
  joinable_key : key userRef = Some userKey;
  joinable_key_nonempty : userKey ≠ EmptyString;
  joinable_name : userNameAtom a = Some name;
  joinable_name_nonempty : name ≠ EmptyString;
}.

(** One of the three is missing. *)
Definition Missing (a : Atoms) : Prop :=
  firebaseRefAtom a = None
  ∨ userRefAtom a = None
  ∨ (∃ r, userRefAtom a = Some r ∧ truthy_string (key r) = false)
  ∨ truthy_string (userNameAtom a) = false.

(** ** Sample data for the examples *)

Definition no_atoms : Atoms :=
  {| baseFirebaseUserAtom := None; userNameAtom := None; baseFileIdAtom := None;
     firebaseRefAtom := None; userRefAtom := None;
     actualUserPermissionAtom := None; defaultPermissionAtom := None |}.

(** A world with the given atoms and document tree, in which the store
    rejects nothing. *)
Definition world_of (a : Atoms) (t : json) : World :=
  {| atoms := a; store := t; readError := λ _, None; writeError := λ _, None;
     pushed := 0; search := EmptyString; permissionDenied := false; trace := [] |}.

Definition sample_animals : list string := ["Alligator"; "Bat"; "Camel"].
Definition sample_color (userId : string) : string := "hsl(" +:+ userId +:+ ")".
Definition sample_pushKey (n : nat) : string := "-Mkey" +:+ pretty n.

(** A user joined to the workspace [-abc] as [u1], named Ann. *)
Definition joined_atoms (permission : option Permission) : Atoms :=
  {| baseFirebaseUserAtom := Some {| uid := "u1"; displayName := Some "Ann" |};
     userNameAtom := Some "Ann";
     baseFileIdAtom := Some {| id := "-abc"; isNewFile := false |};
     firebaseRefAtom := Some ["-abc"];
     userRefAtom := Some ["-abc"; "users"; "u1"];
     actualUserPermissionAtom := permission;
     defaultPermissionAtom := permission |}.

(** Two paths part ways at some field: neither lies on or below the other. *)
Definition diverge (p q : list string) : Prop :=
  ∃ r a b p' q', p = r ++ a :: p' ∧ q = r ++ b :: q' ∧ a ≠ b.

(** The database holding the workspace [-abc], private by default, with the
    given record stored for the user [u1]. *)
Definition sample_store (record : json) : json :=
  JObj {[ "-abc" :=
    JObj {[ "users" := JObj {[ "u1" := record ]};
            "settings" := JObj {[ "defaultPermission" := JStr "PRIVATE" ]} ]} ]}.

Definition denied : JsError :=
  {| code := Some "PERMISSION_DENIED"; message := "permission_denied at /-abc/users/u1" |}.
Definition unavailable : JsError :=
  {| code := Some "UNAVAILABLE"; message := "network error" |}.

(** A world like [world_of] in which every read is rejected with [e]. *)
Definition unreadable_world (e : JsError) (a : Atoms) (t : json) : World :=
  {| atoms := a; store := t; readError := λ _, Some e; writeError := λ _, None;
     pushed := 0; search := EmptyString; permissionDenied := false; trace := [] |}.

(** Effects that neither read nor write the store. *)
Definition quiet (l : list Effect) : Prop :=
  filter (λ e, is_read e = true) l = [] ∧ filter (λ e, is_write e = true) l = [].


(** Logging a list of effects, oldest first. *)
Definition logs (l : list Effect) (w : World) : World := foldl (λ w e, log e w) w l.

(** A source workspace for the copy flow: an editor field with its own
    [users] entry, settings with users and a default permission, no input. *)
Definition copy_settings : gmap string json :=
  {[ "workspaceName" := JStr "contest";
     "defaultPermission" := JStr "READ";
     "users" := JObj {[ "u1" := JObj {[ "name" := JStr "Ann" ]} ]} ]}.

Definition copy_source : json :=
  JObj {[ "-Mabcdefghijklmnopqr" :=
    JObj {[ "editor-cpp" :=
              JObj {[ "users" := JObj {[ "u1" := JObj {[ "color" := JStr "#ff0000" ]} ]};
                      "checkpoint" := JStr "int main() {}" ]};
            "settings" := JObj copy_settings ]} ]}.

(** Committed settings without a workspace name, a signed-in user. *)
Definition sample_env : SettingsModal.Env :=
  {| SettingsModal.realWorkspaceSettings := {[ "defaultPermission" := JStr "READ_WRITE" ]};
     SettingsModal.firebaseUser := Some {| uid := "u1"; displayName := Some "Ann" |};
     SettingsModal.editorModeAtom := "Vim";
     SettingsModal.userRef := Some ["-abc"; "users"; "u1"] |}.

(** The user of [joined_atoms] after saving an empty display name, the
    workspace private by default. *)
Definition unnamed_atoms : Atoms :=
  put_userNameAtom (Some EmptyString) (joined_atoms (Some PRIVATE)).

(** ** Further definitions: what the page shows, the first rejected read *)

(** The message [CopyFilePage] renders. *)
Definition CopyFilePage_message (w : World) : string :=
  if permissionDenied w then "This file is private." else "Copying file...".

(** The rejection [promise_all] ends a list of reads with: that of the first
    location, in list order, whose read the store rejects. *)
Fixpoint first_rejection (err : Reference → option JsError) (rs : list Reference)
  : option JsError :=
  match rs with
  | [] => None
  | r :: rs' =>
      match err r with
      | Some e => Some e
      | None => first_rejection err rs'
      end
  end.

(** The locations the copy flow reads below the source reference. *)
Definition source_fields (oldRef : Reference) : list Reference :=
  (λ k, oldRef ++ [k]) <$> keysToCopy.

(** A world like [world_of] in which every write is rejected with [e]. *)
Definition unwritable_world (e : JsError) (a : Atoms) (t : json) : World :=
  {| atoms := a; store := t; readError := λ _, None; writeError := λ _, Some e;
     pushed := 0; search := EmptyString; permissionDenied := false; trace := [] |}.

(** The atoms of [joined_atoms] with another default permission. *)
Definition joined_atoms_default (actual default_ : option Permission) : Atoms :=
  {| baseFirebaseUserAtom := baseFirebaseUserAtom (joined_atoms actual);
     userNameAtom := userNameAtom (joined_atoms actual);
     baseFileIdAtom := baseFileIdAtom (joined_atoms actual);
     firebaseRefAtom := firebaseRefAtom (joined_atoms actual);
     userRefAtom := userRefAtom (joined_atoms actual);
     actualUserPermissionAtom := actual;
     defaultPermissionAtom := default_ |}.

(** Events of the settings modal that edit nothing: a change of tab, new
    committed settings. *)
Definition passive (ev : SettingsModal.Event) : bool :=
  match ev with
  | SettingsModal.SetTab _ | SettingsModal.Committed _ => true
  | _ => false
  end.

(** ** Path strings the store accepts *)

(** The characters the store's client refuses in a path string: [.], [#],
    [$], the square brackets, and the control characters. *)
Definition forbidden (c : ascii) : bool :=
  (nat_of_ascii c <? 32)%nat || (nat_of_ascii c =? 127)%nat
  || Ascii.eqb c "." || Ascii.eqb c "#" || Ascii.eqb c "$"
  || Ascii.eqb c "[" || Ascii.eqb c "]".

(** A path string without forbidden character; slashes separate its keys. *)
Fixpoint valid_path (s : string) : bool :=
  match s with
  | EmptyString => true
  | String c s' => negb (forbidden c) && valid_path s'
  end.

(** A stored value that is not an object and not null: the store keeps it as
    written. *)
Definition is_leaf (v : json) : Prop :=
  match v with
  | JBool _ | JNum _ | JStr _ => True
  | JNull | JObj _ => False
  end.
(** * Properties *)

(** ** Paths and the tree *)

Lemma pieces_no_slash (s : string) : has_slash s = false → pieces s = [s].
Proof.
  induction s as [|c s IH]; simpl; [done|].
  intros [Hc Hs]%orb_false_iff. rewrite Hc, (IH Hs). done.
Qed.

Lemma pieces_elem_no_slash (s p : string) : p ∈ pieces s → has_slash p = false.
Proof.
  revert p. induction s as [|c s IH]; simpl; intros p Hp.
  - apply list_elem_of_singleton in Hp. by subst.
  - destruct (Ascii.eqb c slash) eqn:Hc.
    + apply elem_of_cons in Hp as [->|Hp]; [done|by apply IH].
    + destruct (pieces s) as [|q qs] eqn:Hq.
      * apply list_elem_of_singleton in Hp. subst. simpl. by rewrite Hc.
      * apply elem_of_cons in Hp as [->|Hp].
        -- simpl. rewrite Hc. simpl. apply IH. left.
        -- apply IH. by right.
Qed.

Lemma path_of_string_segment (s : string) :
  s ≠ EmptyString → has_slash s = false → path_of_string s = [s].
Proof.
  intros Hne Hs. unfold path_of_string. rewrite (pieces_no_slash s Hs).
  by rewrite filter_cons_True, filter_nil.
Qed.

Lemma path_of_string_elem_no_slash (s p : string) :
  p ∈ path_of_string s → has_slash p = false.
Proof.
  unfold path_of_string. rewrite list_elem_of_filter. intros [_ Hp].
  by eapply pieces_elem_no_slash.
Qed.

Lemma string_cons_ne (c : ascii) (s : string) : String c s ≠ s.
Proof. intros H. apply (f_equal String.length) in H. simpl in H. lia. Qed.

Lemma append_cons (c : ascii) (s t : string) : String c s +:+ t = String c (s +:+ t).
Proof. reflexivity. Qed.

Lemma append_nil (t : string) : EmptyString +:+ t = t.
Proof. reflexivity. Qed.

(** The key of the reference resolved for an identifier is never the
    identifier itself: it carries the dash. *)
Lemma key_child_dash_ne (s : string) : key (child root ("-" +:+ s)) ≠ Some s.
Proof.
  unfold key, child, root. rewrite append_cons, append_nil. simpl app at 1.
  destruct (has_slash s) eqn:Hs.
  - intros Hk. apply last_Some_elem_of in Hk.
    apply path_of_string_elem_no_slash in Hk. congruence.
  - rewrite path_of_string_segment; [|done|by simpl].
    simpl. intros [= H]. by apply string_cons_ne in H.
Qed.

Lemma key_child_dash_is_Some (s : string) : is_Some (key (child root ("-" +:+ s))).
Proof.
  unfold key, child, root, path_of_string.
  rewrite append_cons, append_nil. simpl.
  apply last_is_Some.
  destruct (pieces s) as [|q qs]; by rewrite filter_cons_True.
Qed.

Lemma get_path_app (p q : list string) (t : json) :
  get_path (p ++ q) t = get_path q (get_path p t).
Proof. revert t. induction p as [|k p IH]; intros t; simpl; [done|apply IH]. Qed.

Lemma get_set_path_same (p : list string) (v t : json) : get_path p (set_path p v t) = v.
Proof.
  revert t. induction p as [|k p IH]; intros t; simpl; [done|].
  rewrite lookup_insert_eq. simpl. apply IH.
Qed.

(** A write below one field leaves what is below a sibling field as it was. *)
Lemma get_set_path_sibling (r p q : list string) (a b : string) (v t : json) :
  a ≠ b →
  get_path (r ++ a :: q) (set_path (r ++ b :: p) v t) = get_path (r ++ a :: q) t.
Proof.
  intros Hab. revert t. induction r as [|k r IH]; intros t; simpl.
  - rewrite lookup_insert_ne by done. by destruct t.
  - rewrite lookup_insert_eq. simpl. apply IH.
Qed.

(** A write leaves every location that parts ways with its path as it was. *)
Lemma get_set_path_diverge (p q : list string) (v t : json) :
  diverge p q → get_path q (set_path p v t) = get_path q t.
Proof.
  intros (r & a & b & p' & q' & -> & -> & Hab). by apply get_set_path_sibling.
Qed.

(** ** Effects of a run *)

Lemma issued_of_trace {A} (m : M A) (w : World) (l : list Effect) :
  trace (after m w) = trace w ++ l → issued m w = l.
Proof. unfold issued. intros ->. by rewrite drop_app_length. Qed.

(** Unfolding the monad: the run of a computation becomes a term on worlds. *)
Ltac unfold_m :=
  unfold issued; unfold outcome, after, mbind, M_bind, mret, M_ret, throw, catch,
    get, set_atom, emit, ref_once, ref_update, ref_set, ref_push in *.

(** ** The permission-gated accessors *)

(** C6: both permission-gated accessors are functions of the atoms alone;
    they return the raw reference unchanged when the permission is OWNER,
    READ_WRITE or READ, and null when it is PRIVATE or unset. *)
Theorem authenticated_refs_gate (a : Atoms) :
  (actualUserPermissionAtom a ∈ [Some OWNER; Some READ_WRITE; Some READ] →
     authenticatedFirebaseRefAtom a = firebaseRefAtom a
     ∧ authenticatedUserRefAtom a = userRefAtom a)
  ∧ (actualUserPermissionAtom a ∈ [Some PRIVATE; None] →
     authenticatedFirebaseRefAtom a = None
     ∧ authenticatedUserRefAtom a = None).
Proof.
  unfold authenticatedFirebaseRefAtom, authenticatedUserRefAtom.
  split; intros Hp; set_unfold in Hp;
    destruct Hp as [->|Hp]; try destruct Hp as [->|Hp]; try destruct Hp as [->|Hp];
    try done; by destruct Hp.
Qed.

Lemma authenticated_refs_gate_witness :
  (authenticatedFirebaseRefAtom (joined_atoms (Some READ)) = Some ["-abc"]
   ∧ authenticatedUserRefAtom (joined_atoms (Some READ)) = Some ["-abc"; "users"; "u1"])
  ∧ (authenticatedFirebaseRefAtom (joined_atoms (Some PRIVATE)) = None
     ∧ authenticatedUserRefAtom (joined_atoms (Some PRIVATE)) = None).
Proof.
  split.
  - apply (proj1 (authenticated_refs_gate (joined_atoms (Some READ)))).
    simpl. right. right. left.
  - apply (proj2 (authenticated_refs_gate (joined_atoms (Some PRIVATE)))).
    simpl. left.
Defined.

(** ** The identity adapter *)

Lemma random_index_lt (len : nat) (random : Q) :
  (0 < len)%nat → (0 <= random)%Q → (random < 1)%Q →
  (random_index len random < len)%nat.
Proof.
  intros Hlen H0 H1. unfold random_index.
  set (n := inject_Z (Z.of_nat len)).
  assert (Hn : (0 < n)%Q).
  { unfold n. change 0%Q with (inject_Z 0). rewrite <- Zlt_Qlt. lia. }
  assert (Hlo : (0 <= Qfloor (n * random))%Z).
  { change 0%Z with (Qfloor 0). apply Qfloor_resp_le.
    apply Qmult_le_0_compat; [by apply Qlt_le_weak|done]. }
  assert (Hhi : (Qfloor (n * random) < Z.of_nat len)%Z).
  { rewrite Zlt_Qlt. fold n.
    eapply Qle_lt_trans; [apply Qfloor_le|].
    rewrite <- (Qmult_1_r n) at 2. by apply Qmult_lt_l. }
  lia.
Qed.

Lemma animal_at_elem (animals : list string) (i : nat) :
  (i < length animals)%nat → animal_at animals i ∈ animals.
Proof. intros Hi. apply list_elem_of_In. by apply nth_In. Qed.

(** C7: what the write function of the identity adapter does with a user
    value.  A user without display name gets ["Anonymous "] followed by an
    element of the animal list, which is sent to the identity record and
    becomes the user-name state; a user with a display name has that name
    become the user-name state; null clears the user-name state. *)
Theorem firebaseUserAtom_write_spec (animals : list string) (random : Q)
    (user : option User) (w : World) :
  animals ≠ [] → (0 <= random)%Q → (random < 1)%Q →
  let m := firebaseUserAtom_write animals random user in
  outcome m w = Returned tt
  ∧ baseFirebaseUserAtom (atoms (after m w)) = user
  ∧ (∀ u, user = Some u → truthy_string (displayName u) = false →
       ∃ a, a ∈ animals
         ∧ userNameAtom (atoms (after m w)) = Some ("Anonymous " +:+ a)
         ∧ issued m w = [UpdateProfile u (Some ("Anonymous " +:+ a))])
  ∧ (∀ u, user = Some u → truthy_string (displayName u) = true →
       userNameAtom (atoms (after m w)) = displayName u ∧ issued m w = [])
  ∧ (user = None → userNameAtom (atoms (after m w)) = None ∧ issued m w = []).
Proof.
  intros Hne H0 H1 m. subst m.
  assert (Hlen : (0 < length animals)%nat) by (destruct animals; [done|simpl; lia]).
  pose proof (random_index_lt _ _ Hlen H0 H1) as Hidx.
  destruct user as [u|]; unfold firebaseUserAtom_write; unfold_m;
    cbn -[random_index animal_at String.append].
  - destruct (truthy_string (displayName u)) eqn:Hd;
      cbn -[random_index animal_at String.append];
      (split; [done|]); (split; [done|]); (split; [|split]).
    + intros u' [= <-] Hf. congruence.
    + intros u' [= <-] _. by rewrite drop_all.
    + done.
    + intros u' [= <-] _. eexists. split; [by apply animal_at_elem|].
      split; [done|]. by rewrite drop_app_length.
    + intros u' [= <-] Hf. congruence.
    + done.
  - (split; [done|]); (split; [done|]); (split; [done|]); (split; [done|]).
    intros _. by rewrite drop_all.
Qed.

Lemma firebaseUserAtom_write_spec_witness :
  let m := firebaseUserAtom_write sample_animals (1 # 2)
             (Some {| uid := "u1"; displayName := None |}) in
  outcome m (world_of no_atoms JNull) = Returned tt
  ∧ userNameAtom (atoms (after m (world_of no_atoms JNull))) = Some "Anonymous Bat".
Proof.
  assert (Hne : sample_animals ≠ []) by done.
  assert (H0 : (0 <= 1 # 2)%Q) by done.
  assert (H1 : (1 # 2 < 1)%Q) by done.
  pose proof (firebaseUserAtom_write_spec sample_animals (1 # 2)
    (Some {| uid := "u1"; displayName := None |}) (world_of no_atoms JNull)
    Hne H0 H1) as (Ho & _ & _).
  split; [exact Ho|reflexivity].
Defined.

(** ** The join protocol *)

Lemma truthy_string_Some (s : string) : s ≠ EmptyString → truthy_string (Some s) = true.
Proof. intros Hs. simpl. by apply negb_true_iff, String.eqb_neq. Qed.

Lemma join_preconditions_ok (w : World) (ref userRef : Reference) (userKey name : string) :
  Joinable (atoms w) ref userRef userKey name →
  join_preconditions w = (Returned (ref, userRef, userKey, name), w).
Proof.
  intros [Href HuserRef Hkey Hk Hname Hn]. unfold join_preconditions. unfold_m.
  rewrite Href, HuserRef, Hname. cbn -[truthy_string].
  unfold key_nonnull. rewrite Hkey, !truthy_string_Some by done. done.
Qed.

Lemma join_preconditions_missing (w : World) :
  Missing (atoms w) →
  ∃ msg, join_preconditions w = (Thrown (Error msg), w)
         ∧ msg ∈ [ref_must_be_set; userRef_must_be_set; name_must_be_set].
Proof.
  intros Hm. unfold join_preconditions. unfold_m. cbn -[truthy_string].
  destruct (firebaseRefAtom (atoms w)) as [ref|] eqn:Href.
  2: { eexists. split; [done|]. left. }
  destruct (userRefAtom (atoms w)) as [userRef|] eqn:HuserRef.
  2: { eexists. split; [done|]. right. left. }
  destruct (truthy_string (key userRef)) eqn:Hkey; cbn -[truthy_string].
  2: { eexists. split; [done|]. right. left. }
  destruct (truthy_string (userNameAtom (atoms w))) eqn:Hname; cbn -[truthy_string].
  2: { eexists. split; [done|]. right. right. left. }
  destruct Hm as [?|[?|[(r & Hr & Hk)|?]]]; congruence.
Qed.

Lemma path_users_key (k : string) :
  k ≠ EmptyString → has_slash k = false → path_of_string ("users/" +:+ k) = ["users"; k].
Proof.
  intros Hk Hs. unfold path_of_string. rewrite !append_cons, append_nil.
  simpl pieces. rewrite (pieces_no_slash k Hs).
  by rewrite !filter_cons_True, filter_nil.
Qed.

(** C1: join-as-owner.  With the workspace reference, the user reference and
    its key, and a non-empty user name set, it issues one update of the
    workspace reference, which writes the presence record (name, color of the
    user key, permission OWNER) under [users/<userKey>] and READ_WRITE under
    [settings/defaultPermission]; with one of the three missing it throws an
    error naming the missing part and leaves the world as it was. *)
Theorem joinNewWorkspaceAsOwnerAtom_spec (colorFromUserId : string → string) (w : World) :
  let m := joinNewWorkspaceAsOwnerAtom colorFromUserId in
  (∀ ref userRef userKey name,
     Joinable (atoms w) ref userRef userKey name →
     let record : json :=
       JObj {[ "name" := JStr name;
               "color" := JStr (colorFromUserId userKey);
               "permission" := JStr "OWNER" ]} in
     issued m w =
       [StoreUpdate ref [ ("users/" +:+ userKey, record);
                          ("settings/defaultPermission", JStr "READ_WRITE") ]]
     ∧ atoms (after m w) = atoms w
     ∧ (∀ e, writeError w ref = Some e →
          outcome m w = Thrown e ∧ store (after m w) = store w)
     ∧ (writeError w ref = None →
          outcome m w = Returned tt
          ∧ (has_slash userKey = false →
             get_path (ref ++ ["users"; userKey]) (store (after m w)) = record
             ∧ get_path (ref ++ ["settings"; "defaultPermission"]) (store (after m w))
               = JStr "READ_WRITE")))
  ∧ (Missing (atoms w) →
     ∃ msg, outcome m w = Thrown (Error msg)
            ∧ msg ∈ [ref_must_be_set; userRef_must_be_set; name_must_be_set]
            ∧ after m w = w).
Proof.
  intros m. subst m. split.
  - intros ref userRef userKey name Hj record.
    pose proof (join_preconditions_ok w _ _ _ _ Hj) as Hpre.
    unfold joinNewWorkspaceAsOwnerAtom. unfold_m. rewrite Hpre.
    cbn -[String.append path_of_string].
    destruct (writeError w ref) as [e|] eqn:He; cbn -[String.append path_of_string].
    + split; [by rewrite drop_app_length|]. split; [done|].
      split; [|done]. by intros e' [= <-].
    + split; [by rewrite drop_app_length|]. split; [done|].
      split; [done|]. intros _. split; [done|]. intros Hs.
      unfold apply_update. cbn -[String.append path_of_string].
      rewrite path_users_key by (done || apply Hj).
      change (path_of_string "settings/defaultPermission")
        with ["settings"; "defaultPermission"].
      split.
      * rewrite (get_set_path_sibling ref ["defaultPermission"] [userKey]) by done.
        apply get_set_path_same.
      * apply get_set_path_same.
  - intros Hm. destruct (join_preconditions_missing w Hm) as (msg & Hpre & Hmsg).
    exists msg. unfold joinNewWorkspaceAsOwnerAtom. unfold_m. rewrite Hpre.
    done.
Qed.

Lemma joinNewWorkspaceAsOwnerAtom_spec_witness :
  let w := world_of (joined_atoms None) JNull in
  let m := joinNewWorkspaceAsOwnerAtom sample_color in
  (Joinable (atoms w) ["-abc"] ["-abc"; "users"; "u1"] "u1" "Ann"
   ∧ outcome m w = Returned tt
   ∧ get_path ["-abc"; "users"; "u1"; "permission"] (store (after m w)) = JStr "OWNER"
   ∧ get_path ["-abc"; "settings"; "defaultPermission"] (store (after m w))
     = JStr "READ_WRITE")
  ∧ (Missing no_atoms
     ∧ ∃ msg, outcome m (world_of no_atoms JNull) = Thrown (Error msg)).
Proof.
  assert (Hj : Joinable (atoms (world_of (joined_atoms None) JNull))
                 ["-abc"] ["-abc"; "users"; "u1"] "u1" "Ann") by (by split).
  assert (Hm : Missing (atoms (world_of no_atoms JNull))) by (by left).
  split.
  - destruct (joinNewWorkspaceAsOwnerAtom_spec sample_color
                (world_of (joined_atoms None) JNull)) as [Hok _].
    destruct (Hok _ _ _ _ Hj) as (_ & _ & _ & Hw).
    destruct (Hw eq_refl) as (Ho & Hs). destruct (Hs eq_refl) as (Hrec & Hdp).
    split; [exact Hj|]. split; [exact Ho|]. split; [|exact Hdp].
    change ["-abc"; "users"; "u1"; "permission"]
      with (["-abc"; "users"; "u1"] ++ ["permission"]).
    rewrite get_path_app.
    change (["-abc"] ++ ["users"; "u1"]) with ["-abc"; "users"; "u1"] in Hrec.
    rewrite Hrec. reflexivity.
  - destruct (joinNewWorkspaceAsOwnerAtom_spec sample_color
                (world_of no_atoms JNull)) as [_ Hmiss].
    destruct (Hmiss Hm) as (msg & Ho & _).
    split; [exact Hm|]. by exists msg.
Defined.

Lemma joinable_or_missing (a : Atoms) :
  Missing a ∨ ∃ ref userRef userKey name, Joinable a ref userRef userKey name.
Proof.
  destruct (firebaseRefAtom a) as [ref|] eqn:Href; [|by left; left].
  destruct (userRefAtom a) as [userRef|] eqn:HuserRef; [|by left; right; left].
  destruct (truthy_string (key userRef)) eqn:Hkey.
  2: { left. right. right. left. by exists userRef. }
  destruct (truthy_string (userNameAtom a)) eqn:Hname.
  2: { left. by do 3 right. }
  right. destruct (key userRef) as [k|] eqn:Hk; [|done].
  destruct (userNameAtom a) as [n|] eqn:Hn; [|done].
  exists ref, userRef, k, n.
  simpl in Hkey, Hname. apply negb_true_iff, String.eqb_neq in Hkey, Hname.
  by split.
Qed.

(** C10: join-existing with the default permission unset throws an error
    naming a missing part and issues no effect, so no read and no write of
    the store; when the three preconditions shared with join-as-owner hold,
    the error is the one about the permission. *)
Theorem joinExisting_requires_permission (colorFromUserId : string → string) (w : World) :
  defaultPermissionAtom (atoms w) = None →
  let m := joinExistingWorkspaceWithDefaultPermissionAtom colorFromUserId in
  ∃ msg, outcome m w = Thrown (Error msg)
         ∧ msg ∈ [ref_must_be_set; userRef_must_be_set; name_must_be_set;
                  permission_must_be_set]
         ∧ after m w = w
         ∧ issued m w = []
         ∧ (∀ ref userRef userKey name,
              Joinable (atoms w) ref userRef userKey name →
              msg = permission_must_be_set).
Proof.
  intros Hp m. subst m.
  unfold joinExistingWorkspaceWithDefaultPermissionAtom. unfold_m. rewrite Hp.
  destruct (joinable_or_missing (atoms w)) as [Hm|(ref & userRef & k & n & Hj)].
  - destruct (join_preconditions_missing w Hm) as (msg & Hpre & Hmsg).
    exists msg. rewrite Hpre. cbn.
    split; [done|]. split.
    { revert Hmsg. rewrite !elem_of_cons, !elem_of_nil. tauto. }
    split; [done|].
    split; [by rewrite drop_all|].
    intros ref userRef k n Hj. rewrite (join_preconditions_ok w _ _ _ _ Hj) in Hpre.
    done.
  - rewrite (join_preconditions_ok w _ _ _ _ Hj). cbn.
    exists permission_must_be_set.
    split; [done|]. split; [by do 3 right; left|]. split; [done|].
    split; [by rewrite drop_all|]. done.
Qed.

Lemma joinExisting_requires_permission_witness :
  let w := world_of (joined_atoms None) JNull in
  let m := joinExistingWorkspaceWithDefaultPermissionAtom sample_color in
  defaultPermissionAtom (atoms w) = None
  ∧ ∃ msg, outcome m w = Thrown (Error msg) ∧ after m w = w.
Proof.
  split; [reflexivity|].
  destruct (joinExisting_requires_permission sample_color
              (world_of (joined_atoms None) JNull) eq_refl)
    as (msg & Ho & _ & Ha & _).
  by exists msg.
Defined.

Lemma lacks_prop (k : string) (v : json) : lacks k v → prop k v = JNull.
Proof.
  unfold lacks. destruct v as [| | | |m]; simpl; try done.
  intros H. by rewrite (H m eq_refl).
Qed.

Lemma is_str_ne (s : string) (v : json) : v ≠ JStr s → is_str s v = false.
Proof.
  destruct v as [| | |t|]; simpl; try done.
  intros Hv. apply String.eqb_neq. congruence.
Qed.

Lemma is_permission_denied_iff (e : JsError) :
  is_permission_denied e = true ↔ code e = Some "PERMISSION_DENIED".
Proof.
  unfold is_permission_denied. destruct (code e) as [c|]; [|done].
  rewrite String.eqb_eq. split; congruence.
Qed.

(** Join-existing past its four guards: the read, its handler, the catch. *)
Lemma joinExisting_run (colorFromUserId : string → string) (w : World)
    (ref userRef : Reference) (userKey name : string) (p : Permission) :
  Joinable (atoms w) ref userRef userKey name →
  defaultPermissionAtom (atoms w) = Some p →
  joinExistingWorkspaceWithDefaultPermissionAtom colorFromUserId w =
    catch
      (snap ← ref_once userRef;
       on_snapshot colorFromUserId p userRef userKey name snap)
      (λ e, if is_permission_denied e then mret tt else throw e) w.
Proof.
  intros Hj Hp. unfold joinExistingWorkspaceWithDefaultPermissionAtom.
  unfold mbind at 1 2, M_bind at 1 2, get.
  rewrite Hp, (join_preconditions_ok w _ _ _ _ Hj). done.
Qed.

(** C2, amended: join-existing on a private file.  When the three shared
    preconditions hold (workspace reference, user reference with its key,
    non-empty user name), the default permission is PRIVATE and the stored
    record has no permission field, the operation only reads: it writes
    nothing and returns normally.  A rejection of the read with code
    PERMISSION_DENIED is swallowed, a rejection with any other code is
    rethrown. *)
Theorem joinExisting_private_file (colorFromUserId : string → string) (w : World)
    (ref userRef : Reference) (userKey name : string) :
  Joinable (atoms w) ref userRef userKey name →
  let m := joinExistingWorkspaceWithDefaultPermissionAtom colorFromUserId in
  (defaultPermissionAtom (atoms w) = Some PRIVATE →
   readError w userRef = None →
   lacks "permission" (get_path userRef (store w)) →
     outcome m w = Returned tt
     ∧ issued m w = [StoreOnce userRef]
     ∧ store (after m w) = store w)
  ∧ (∀ p e,
       defaultPermissionAtom (atoms w) = Some p →
       readError w userRef = Some e →
         issued m w = [StoreOnce userRef]
         ∧ store (after m w) = store w
         ∧ (code e = Some "PERMISSION_DENIED" → outcome m w = Returned tt)
         ∧ (code e ≠ Some "PERMISSION_DENIED" → outcome m w = Thrown e)).
Proof.
  intros Hj m. subst m. split.
  - intros Hp Hr Hl. unfold issued; unfold outcome, after.
    rewrite (joinExisting_run _ w _ _ _ _ PRIVATE Hj Hp).
    unfold on_snapshot. unfold_m. rewrite Hr, (lacks_prop _ _ Hl). cbn.
    by rewrite drop_app_length.
  - intros p e Hp Hr. unfold issued; unfold outcome, after.
    rewrite (joinExisting_run _ w _ _ _ _ p Hj Hp).
    unfold_m. rewrite Hr.
    destruct (is_permission_denied e) eqn:Hd; cbn; rewrite drop_app_length.
    + split; [done|]. split; [done|]. split; [done|].
      intros Hc. by apply is_permission_denied_iff in Hd.
    + split; [done|]. split; [done|]. split; [|done].
      intros Hc%is_permission_denied_iff. congruence.
Qed.

Lemma lacks_obj (k : string) (m : gmap string json) : m !! k = None → lacks k (JObj m).
Proof. intros Hk m' [= <-]. done. Qed.

Lemma joined_atoms_joinable (permission : option Permission) (t : json) :
  Joinable (atoms (world_of (joined_atoms permission) t))
    ["-abc"] ["-abc"; "users"; "u1"] "u1" "Ann".
Proof. by split. Qed.

Lemma joinExisting_private_file_witness :
  let m := joinExistingWorkspaceWithDefaultPermissionAtom sample_color in
  let a := joined_atoms (Some PRIVATE) in
  let t := sample_store (JObj {[ "name" := JStr "Bob" ]}) in
  (outcome m (world_of a t) = Returned tt
   ∧ issued m (world_of a t) = [StoreOnce ["-abc"; "users"; "u1"]])
  ∧ outcome m (unreadable_world denied a t) = Returned tt
  ∧ outcome m (unreadable_world unavailable a t) = Thrown unavailable.
Proof.
  split; [|split].
  - destruct (joinExisting_private_file sample_color
      (world_of (joined_atoms (Some PRIVATE)) (sample_store (JObj {[ "name" := JStr "Bob" ]})))
      _ _ _ _ (joined_atoms_joinable _ _)) as [Hpriv _].
    destruct Hpriv as (Ho & Hi & _); [reflexivity|reflexivity| |by split].
    apply (lacks_obj "permission" {[ "name" := JStr "Bob" ]}). reflexivity.
  - destruct (joinExisting_private_file sample_color
      (unreadable_world denied (joined_atoms (Some PRIVATE))
         (sample_store (JObj {[ "name" := JStr "Bob" ]})))
      ["-abc"] ["-abc"; "users"; "u1"] "u1" "Ann") as [_ Hrej]; [by split|].
    destruct (Hrej PRIVATE denied eq_refl eq_refl) as (_ & _ & Hd & _).
    by apply Hd.
  - destruct (joinExisting_private_file sample_color
      (unreadable_world unavailable (joined_atoms (Some PRIVATE))
         (sample_store (JObj {[ "name" := JStr "Bob" ]})))
      ["-abc"] ["-abc"; "users"; "u1"] "u1" "Ann") as [_ Hrej]; [by split|].
    destruct (Hrej PRIVATE unavailable eq_refl eq_refl) as (_ & _ & _ & Hu).
    by apply Hu.
Defined.

(** The claim as stated fails: with default permission PRIVATE and a stored
    record without permission field, the operation throws when one of its
    guards does not hold, here the one on the user name. *)
Lemma joinExisting_private_file_unnamed_throws :
  let m := joinExistingWorkspaceWithDefaultPermissionAtom sample_color in
  let w := world_of unnamed_atoms (sample_store (JObj {[ "name" := JStr "Bob" ]})) in
  defaultPermissionAtom (atoms w) = Some PRIVATE
  ∧ get_path ["-abc"; "users"; "u1"] (store w) = JObj {[ "name" := JStr "Bob" ]}
  ∧ outcome m w = Thrown (Error name_must_be_set).
Proof. repeat split. Qed.



(** ** Reference resolution *)

(** The write function of [fileIdAtom] returns, and neither reads nor writes
    the store. *)
Lemma fileIdAtom_write_quiet (pushKey : nat → string) (payload : option Payload) (w : World) :
  let m := fileIdAtom_write pushKey payload in
  outcome m w = Returned tt
  ∧ store (after m w) = store w
  ∧ permissionDenied (after m w) = permissionDenied w
  ∧ ∃ l, trace (after m w) = trace w ++ l ∧ quiet l.
Proof.
  intros m. subst m. unfold fileIdAtom_write. unfold_m.
  destruct payload as [p|]; cbn -[String.append child].
  2: { do 3 (split; [done|]). exists []. by rewrite app_nil_r. }
  destruct (same_id _ _ && _); cbn -[String.append child].
  { do 3 (split; [done|]). exists []. by rewrite app_nil_r. }
  destruct (truthy_string (newId p)); cbn -[String.append child];
    destruct (default false (isNewFile_flag p)); cbn -[String.append child];
    do 3 (split; [done|]);
    first [ by (eexists; split; [reflexivity|split; reflexivity])
          | by (exists []; split; [by rewrite app_nil_r|split; reflexivity]) ].
Qed.

(** ** The copy flow *)

(** C9: a source identifier that is missing or whose length is not 19 makes
    the copy flow alert "Error: Bad URL" and navigate to the start page
    replacing history, and nothing else: no reference is allocated, nothing
    is read from or written to the store. *)
Theorem CopyFilePage_bad_url (pushKey : nat → string) (fileId : option string) (w : World) :
  (∀ queryId, fileId = Some queryId → String.length queryId ≠ 19%nat) →
  let m := CopyFilePage_effect pushKey fileId in
  outcome m w = Returned tt
  ∧ issued m w = [Alert "Error: Bad URL"; Navigate "/" true]
  ∧ store (after m w) = store w
  ∧ pushed (after m w) = pushed w
  ∧ atoms (after m w) = atoms w.
Proof.
  intros Hlen m. subst m. unfold CopyFilePage_effect.
  destruct fileId as [queryId|].
  - specialize (Hlen queryId eq_refl).
    apply Nat.eqb_neq in Hlen. rewrite Hlen. unfold_m. cbn.
    rewrite <- app_assoc, drop_app_length. done.
  - unfold_m. cbn. rewrite <- app_assoc, drop_app_length. done.
Qed.

Lemma CopyFilePage_bad_url_witness :
  let m := CopyFilePage_effect sample_pushKey (Some "abc") in
  let w := world_of no_atoms (sample_store JNull) in
  issued m w = [Alert "Error: Bad URL"; Navigate "/" true]
  ∧ store (after m w) = store w.
Proof.
  destruct (CopyFilePage_bad_url sample_pushKey (Some "abc")
              (world_of no_atoms (sample_store JNull))) as (_ & Hi & Hs & _).
  { intros queryId [= <-]. simpl. lia. }
  split; [exact Hi|exact Hs].
Defined.

Lemma logs_app (l1 l2 : list Effect) (w : World) : logs (l1 ++ l2) w = logs l2 (logs l1 w).
Proof. unfold logs. apply foldl_app. Qed.

Lemma logs_fields (l : list Effect) (w : World) :
  store (logs l w) = store w ∧ readError (logs l w) = readError w
  ∧ writeError (logs l w) = writeError w ∧ atoms (logs l w) = atoms w
  ∧ pushed (logs l w) = pushed w ∧ search (logs l w) = search w
  ∧ permissionDenied (logs l w) = permissionDenied w
  ∧ trace (logs l w) = trace w ++ l.
Proof.
  revert w. induction l as [|e l IH]; intros w; simpl.
  - by rewrite app_nil_r.
  - destruct (IH (log e w)) as (-> & -> & -> & -> & -> & -> & -> & ->).
    simpl. by rewrite <- app_assoc.
Qed.

(** All reads of a [Promise.all] that the store accepts: the values at the
    locations, and one logged read per location. *)
Lemma promise_all_reads (rs : list Reference) (w : World) :
  (∀ r, r ∈ rs → readError w r = None) →
  promise_all (ref_once <$> rs) w
  = (Returned ((λ r, get_path r (store w)) <$> rs), logs (StoreOnce <$> rs) w).
Proof.
  revert w. induction rs as [|r rs IH]; intros w Hok; simpl; [done|].
  unfold ref_once at 1. rewrite (Hok r) by left.
  rewrite IH.
  - done.
  - intros r' Hr'. simpl. apply Hok. by right.
Qed.

Lemma child_key (r : Reference) (k : string) : k ∈ keysToCopy → child r k = r ++ [k].
Proof.
  unfold keysToCopy. rewrite !elem_of_cons, elem_of_nil.
  intros [->|[->|[->|[->|[->|[]]]]]]; reflexivity.
Qed.

Lemma toKeep_obj (src : gmap string json) :
  toKeep (JObj src) = JObj (delete "users" (delete "defaultPermission" src)).
Proof. reflexivity. Qed.

Lemma toKeep_null : toKeep JNull = JObj ∅.
Proof. unfold toKeep. simpl. by rewrite !delete_empty. Qed.


(** The run of the copy flow on a well-formed identifier when the store
    accepts the five reads and the write: the reads, the write of the new
    document, then the activation of the new reference. *)
Lemma CopyFilePage_run (pushKey : nat → string) (queryId : string) (w : World) :
  String.length queryId = 19%nat →
  let oldRef := child root ("-" +:+ queryId) in
  let newRef := [pushKey (pushed w)] in
  (∀ k, k ∈ keysToCopy → readError w (oldRef ++ [k]) = None) →
  writeError w newRef = None →
  let doc := updateObject ((λ k, get_path (oldRef ++ [k]) (store w)) <$> keysToCopy) in
  let w' := with_store (set_path newRef doc)
              (log (StoreSet newRef doc)
                 (logs ((λ k, StoreOnce (oldRef ++ [k])) <$> keysToCopy)
                    (with_pushed (S (pushed w)) w))) in
  CopyFilePage_effect pushKey (Some queryId) w
  = (Returned tt,
     after (fileIdAtom_write pushKey
              (Some {| newId := Some (drop_first (pushKey (pushed w)));
                       isNewFile_flag := Some true |})) w').
Proof.
  intros Hlen oldRef newRef Hread Hwrite doc w'.
  unfold CopyFilePage_effect.
  rewrite Hlen. cbn [Nat.eqb negb]. fold oldRef.
  unfold catch, mbind, M_bind, ref_push. fold newRef.
  change ((λ k, ref_once (child oldRef k)) <$> keysToCopy)
    with (ref_once <$> (child oldRef <$> keysToCopy)).
  rewrite promise_all_reads.
  2: { intros r (k & -> & Hk)%list_elem_of_fmap. rewrite child_key by done. by apply Hread. }
  change (child oldRef <$> keysToCopy) with ((λ k, oldRef ++ [k]) <$> keysToCopy).
  rewrite <- !list_fmap_compose.
  unfold ref_set.
  destruct (logs_fields ((StoreOnce ∘ (λ k, oldRef ++ [k])) <$> keysToCopy)
              (with_pushed (S (pushed w)) w)) as (_ & _ & -> & _).
  change (root ++ newRef) with newRef.
  change (writeError (with_pushed (S (pushed w)) w) newRef) with (writeError w newRef).
  rewrite Hwrite.
  set (payload := Some {| newId := Some (drop_first (pushKey (pushed w)));
                          isNewFile_flag := Some true |}).
  destruct (fileIdAtom_write_quiet pushKey payload w') as (Ho & _).
  unfold outcome in Ho. unfold after.
  destruct (fileIdAtom_write pushKey _ _) as [o w3] eqn:Hrun.
  simpl in Ho. by subst o.
Qed.

Lemma updateObject_lookup (data : list json) (k : string) (i : nat) (v : json) :
  keysToCopy !! i = Some k → data !! i = Some v → length data = 5%nat →
  fields (updateObject data) !! k = Some (toKeep v).
Proof.
  intros Hk Hv Hlen.
  destruct data as [|d0 [|d1 [|d2 [|d3 [|d4 [|]]]]]]; try done.
  unfold updateObject, keysToCopy in *. simpl.
  destruct i as [|[|[|[|[|]]]]]; simpl in Hk, Hv; simplify_eq; by simplify_map_eq.
Qed.

Lemma updateObject_keys (data : list json) (k : string) :
  length data = 5%nat →
  is_Some (fields (updateObject data) !! k) ↔ k ∈ keysToCopy.
Proof.
  intros Hlen.
  destruct data as [|d0 [|d1 [|d2 [|d3 [|d4 [|]]]]]]; try done.
  unfold updateObject, keysToCopy. simpl.
  rewrite !lookup_insert_is_Some', lookup_empty, !elem_of_cons, elem_of_nil.
  rewrite <- not_eq_None_Some. intuition congruence.
Qed.

Lemma prop_updateObject (k : string) (data : list json) :
  prop k (updateObject data) = default JNull (fields (updateObject data) !! k).
Proof. reflexivity. Qed.

Lemma get_path_cons (k : string) (p : list string) (t : json) :
  get_path (k :: p) t = get_path p (prop k t).
Proof. reflexivity. Qed.

Lemma get_path_null (q : list string) : get_path q JNull = JNull.
Proof. induction q as [|k q IH]; [done|]. simpl. apply IH. Qed.

(** An entry other than [users] and [defaultPermission] that leads to a
    value is kept by the rest pattern. *)
Lemma toKeep_entry (f : string) (q : list string) (field : json) :
  f ≠ "users" → f ≠ "defaultPermission" →
  is_leaf (get_path (f :: q) field) →
  get_path (f :: q) (toKeep field) = get_path (f :: q) field.
Proof.
  intros Hu Hd Hleaf. destruct field as [| | | |src];
    try (simpl in Hleaf; rewrite get_path_null in Hleaf; by destruct Hleaf).
  simpl. by rewrite !lookup_delete_ne.
Qed.

(** C4, amended: on a source identifier of length 19 that is a valid path,
    whose five reads and whose write the store accepts, the copy flow makes
    one write: a set, on the newly allocated reference, of an object with
    exactly the whitelisted fields.  Each of them, not only [settings], is
    the source's field without its own [users] and [defaultPermission]
    entries, all other entries as in the source, and an absent source field
    is passed as an empty object.  Every value found in the source under
    another entry of a whitelisted field is found at the same place under
    the new reference afterwards. *)
Theorem CopyFilePage_copies (pushKey : nat → string) (queryId : string) (w : World) :
  String.length queryId = 19%nat →
  valid_path queryId = true →
  let oldRef := child root ("-" +:+ queryId) in
  let newRef := [pushKey (pushed w)] in
  (∀ k, k ∈ keysToCopy → readError w (oldRef ++ [k]) = None) →
  writeError w newRef = None →
  let m := CopyFilePage_effect pushKey (Some queryId) in
  outcome m w = Returned tt
  ∧ (∃ doc : gmap string json,
      filter (λ e, is_write e = true) (issued m w) = [StoreSet newRef (JObj doc)]
      ∧ (∀ k, is_Some (doc !! k) ↔ k ∈ keysToCopy)
      ∧ (∀ k, k ∈ keysToCopy →
           doc !! k = Some (toKeep (get_path (oldRef ++ [k]) (store w))))
      ∧ (∀ k src, k ∈ keysToCopy →
           get_path (oldRef ++ [k]) (store w) = JObj src →
           doc !! k = Some (JObj (delete "users" (delete "defaultPermission" src))))
      ∧ (∀ k, k ∈ keysToCopy →
           get_path (oldRef ++ [k]) (store w) = JNull → doc !! k = Some (JObj ∅)))
  ∧ (∀ k f q, k ∈ keysToCopy → f ≠ "users" → f ≠ "defaultPermission" →
       is_leaf (get_path (oldRef ++ k :: f :: q) (store w)) →
       get_path (newRef ++ k :: f :: q) (store (after m w))
       = get_path (oldRef ++ k :: f :: q) (store w)).
Proof.
  intros Hlen Hvalid oldRef newRef Hread Hwrite m. subst m.
  unfold issued; unfold outcome, after.
  rewrite (CopyFilePage_run pushKey queryId w Hlen Hread Hwrite).
  fold oldRef newRef.
  set (data := (λ k, get_path (oldRef ++ [k]) (store w)) <$> keysToCopy).
  set (reads := (λ k, StoreOnce (oldRef ++ [k])) <$> keysToCopy).
  set (w' := with_store _ _).
  set (payload := Some _).
  destruct (fileIdAtom_write_quiet pushKey payload w') as (_ & Hst & _ & l & Htr & Hl1 & Hl2).
  cbn [fst snd]. split; [done|].
  assert (Hdata : length data = 5%nat) by done.
  assert (Hdoc : ∀ k, k ∈ keysToCopy →
            fields (updateObject data) !! k
            = Some (toKeep (get_path (oldRef ++ [k]) (store w)))).
  { intros k Hk. apply list_elem_of_lookup in Hk as [i Hi].
    apply (updateObject_lookup data k i); [done| |done].
    unfold data. by rewrite list_lookup_fmap, Hi. }
  split.
  - exists (fields (updateObject data)).
    split; [|split; [|split; [|split]]].
    + rewrite Htr. subst w'. cbn [trace with_store log].
      destruct (logs_fields reads (with_pushed (S (pushed w)) w))
        as (_ & _ & _ & _ & _ & _ & _ & ->).
      cbn [trace with_pushed]. rewrite <- !app_assoc, drop_app_length.
      rewrite !filter_app, Hl2. reflexivity.
    + intros k. by apply updateObject_keys.
    + exact Hdoc.
    + intros k src Hk Hsrc. by rewrite (Hdoc k Hk), Hsrc.
    + intros k Hk Hsrc. by rewrite (Hdoc k Hk), Hsrc, toKeep_null.
  - intros k f q Hk Hu Hd Hleaf. rewrite Hst. subst w'. cbn [store with_store].
    rewrite get_path_app, get_set_path_same.
    rewrite get_path_cons, prop_updateObject, (Hdoc k Hk). cbn [default from_option].
    assert (Hsplit : oldRef ++ k :: f :: q = (oldRef ++ [k]) ++ f :: q)
      by (by rewrite <- app_assoc).
    rewrite Hsplit, get_path_app in Hleaf. rewrite Hsplit, (get_path_app (oldRef ++ [k])).
    by apply toKeep_entry.
Qed.

Lemma CopyFilePage_copies_witness :
  let w := world_of no_atoms copy_source in
  let m := CopyFilePage_effect sample_pushKey (Some "Mabcdefghijklmnopqr") in
  outcome m w = Returned tt
  ∧ get_path ["-Mkey0"; "settings"; "workspaceName"] (store (after m w))
    = JStr "contest"
  ∧ get_path ["-Mkey0"; "editor-cpp"; "checkpoint"] (store (after m w))
    = JStr "int main() {}".
Proof.
  destruct (CopyFilePage_copies sample_pushKey "Mabcdefghijklmnopqr"
              (world_of no_atoms copy_source) eq_refl eq_refl)
    as (Ho & _ & Hkeep); [done|done|].
  assert (Hs : "settings" ∈ keysToCopy) by (unfold keysToCopy; do 3 right; left).
  assert (He : "editor-cpp" ∈ keysToCopy) by (unfold keysToCopy; left).
  assert (Hsu : "workspaceName" ≠ "users") by done.
  assert (Hsd : "workspaceName" ≠ "defaultPermission") by done.
  assert (Heu : "checkpoint" ≠ "users") by done.
  assert (Hed : "checkpoint" ≠ "defaultPermission") by done.
  split; [exact Ho|]. split.
  - exact (Hkeep "settings" "workspaceName" [] Hs Hsu Hsd I).
  - exact (Hkeep "editor-cpp" "checkpoint" [] He Heu Hed I).
Defined.

(** The claim as stated fails: a whitelisted field other than [settings] is
    not copied unchanged when it holds a [users] entry. *)
Lemma CopyFilePage_strips_users_of_editor :
  let w := world_of no_atoms copy_source in
  let m := CopyFilePage_effect sample_pushKey (Some "Mabcdefghijklmnopqr") in
  get_path ["-Mabcdefghijklmnopqr"; "editor-cpp"] (store w)
    = JObj {[ "users" := JObj {[ "u1" := JObj {[ "color" := JStr "#ff0000" ]} ]};
              "checkpoint" := JStr "int main() {}" ]}
  ∧ get_path ["-Mkey0"; "editor-cpp"] (store (after m w))
    = JObj {[ "checkpoint" := JStr "int main() {}" ]}
  ∧ get_path ["-Mkey0"; "editor-cpp"] (store (after m w))
    ≠ get_path ["-Mabcdefghijklmnopqr"; "editor-cpp"] (store w).
Proof.
  split; [reflexivity|]. split; [vm_compute; reflexivity|].
  intros H. apply (f_equal (prop "users")) in H. vm_compute in H. discriminate H.
Qed.

(** ** Re-entry of the reference resolver *)

(** X2: after the resolver has resolved a non-empty identifier that is a
    valid path and was not matched by the guard, the stored identifier is the
    key of the resolved reference, [child('-' + identifier)], and differs
    from the identifier: the guard on re-entry compares the key, which
    carries the dash or is the last part of the path, with the identifier
    and does not hold. *)
Lemma fileIdAtom_guard_after_resolution (pushKey : nat → string) (s : string)
    (flag : option bool) (w : World) :
  s ≠ EmptyString →
  valid_path s = true →
  same_id (baseFileIdAtom (atoms w)) (Some s) = false →
  let p := Some {| newId := Some s; isNewFile_flag := flag |} in
  let w1 := after (fileIdAtom_write pushKey p) w in
  firebaseRefAtom (atoms w1) = Some (child root ("-" +:+ s))
  ∧ (∃ k, key (child root ("-" +:+ s)) = Some k
          ∧ baseFileIdAtom (atoms w1)
            = Some {| id := k; isNewFile := default false flag |}
          ∧ k ≠ s)
  ∧ same_id (baseFileIdAtom (atoms w1)) (Some s) = false.
Proof.
  intros Hs Hvalid Hguard p w1. subst p w1. unfold after, fileIdAtom_write. unfold_m.
  cbn -[String.append child truthy_string]. rewrite Hguard.
  rewrite (truthy_string_Some s Hs). cbn -[String.append child].
  destruct (key_child_dash_is_Some s) as [k Hk].
  assert (Hne : k ≠ s).
  { intros ->. by apply key_child_dash_ne in Hk. }
  assert (Hid : key_nonnull (child root ("-" +:+ s)) = k).
  { unfold key_nonnull. by rewrite Hk. }
  destruct (default false flag); cbn -[String.append child]; rewrite Hid;
    (split; [done|]); (split; [by exists k|]); by apply String.eqb_neq.
Qed.

(** C3: the resolver applied twice in a row to the identifier [abc], flagged
    as a new file.  The first application activates the key [-abc]; the
    second does not find [abc] active, resolves the reference again, sets
    both atoms again and navigates a second time. *)
Theorem fileIdAtom_write_twice_navigates_twice :
  let p := Some {| newId := Some "abc"; isNewFile_flag := Some true |} in
  let w1 := after (fileIdAtom_write sample_pushKey p) (world_of no_atoms JNull) in
  baseFileIdAtom (atoms w1) = Some {| id := "-abc"; isNewFile := true |}
  ∧ same_id (baseFileIdAtom (atoms w1)) (Some "abc") = false
  ∧ trace w1 = [Navigate "/abc" true]
  ∧ issued (fileIdAtom_write sample_pushKey p) w1 = [Navigate "/abc" true].
Proof. repeat split. Qed.

(** ** The settings modal *)

Section SettingsModalProperties.
Import SettingsModal.

(** The component remembers the [isOpen] it was last rendered with. *)
Lemma render_lastIsOpen (e : Env) (b : bool) (st : State) :
  lastIsOpen (render e b st) = Some b.
Proof.
  unfold render. destruct (lastIsOpen st) as [b'|] eqn:Hl; [|done].
  destruct (Bool.eqb b' b) eqn:Hb; [|done].
  apply Bool.eqb_prop in Hb. by subst.
Qed.

Lemma render_same (e : Env) (b : bool) (st : State) :
  lastIsOpen st = Some b → render e b st = st.
Proof. intros Hl. unfold render. by rewrite Hl, Bool.eqb_reflx. Qed.

Lemma step_lastIsOpen (s : System) (ev : Event) :
  lastIsOpen (comp s) = Some (isOpen s) →
  lastIsOpen (comp (step s ev)) = Some (isOpen (step s ev)).
Proof.
  intros Hinv. destruct ev as [|data|n|m|t|confirm| |ws]; simpl; try done.
  - apply render_lastIsOpen.
  - unfold closeWithoutSaving.
    destruct (dirtyRef (comp s)); [destruct confirm|]; simpl; try done;
      apply render_lastIsOpen.
  - apply render_lastIsOpen.
  - apply render_lastIsOpen.
Qed.

(** Invariant of the modal with its parent. *)
Lemma run_lastIsOpen (e : Env) (events : list Event) :
  lastIsOpen (comp (run (mounted e) events)) = Some (isOpen (run (mounted e) events)).
Proof.
  induction events as [|ev events IH] using rev_ind.
  - apply render_lastIsOpen.
  - unfold run in *. rewrite foldl_app. simpl. by apply step_lastIsOpen.
Qed.

(** The steps of the modal in every reachable state.  Opening clears the
    dirty flag, seeds name and editor mode from their committed values, and
    passes the committed settings through the reducer: a field the committed
    settings define takes its committed value, and the draft is the committed
    settings when it has no field outside them.  Every draft mutation sets
    the dirty flag.  [closeWithoutSaving] on a dirty draft without
    confirmation calls nothing and leaves the modal open; a dismissal of the
    dialog calls [onClose]. *)
Theorem settings_modal_open_edit_close (e : Env) (events : list Event) :
  let s := run (mounted e) events in
  (isOpen s = false →
     let s' := step s Open in
     isOpen s' = true
     ∧ dirtyRef (comp s') = false
     ∧ name (comp s') = displayName_or_null (firebaseUser (env s))
     ∧ editorMode (comp s') = editorModeAtom (env s)
     ∧ (∀ k v, realWorkspaceSettings (env s) !! k = Some v →
               workspaceSettings (comp s') !! k = Some v)
     ∧ (∀ k, realWorkspaceSettings (env s) !! k = None →
             workspaceSettings (comp s') !! k = workspaceSettings (comp s) !! k)
     ∧ (dom (workspaceSettings (comp s)) ⊆ dom (realWorkspaceSettings (env s)) →
        workspaceSettings (comp s') = realWorkspaceSettings (env s)))
  ∧ (∀ data, dirtyRef (comp (step s (Change data))) = true)
  ∧ (∀ n, dirtyRef (comp (step s (NameChange n))) = true)
  ∧ (∀ mode, dirtyRef (comp (step s (EditorModeChange mode))) = true)
  ∧ (isOpen s = true → dirtyRef (comp s) = true →
       closeWithoutSaving false (comp s) = []
       ∧ step s (CloseWithoutSaving false) = s)
  ∧ isOpen (step s Dismiss) = false.
Proof.
  intros s. pose proof (run_lastIsOpen e events) as Hinv. fold s in Hinv.
  split; [|split; [|split; [|split; [|split]]]]; try done.
  - intros Hclosed s'. subst s'. simpl. rewrite Hclosed in Hinv.
    unfold render. rewrite Hinv. simpl. unfold reducer.
    split; [done|]. split; [done|]. split; [done|]. split; [done|].
    split; [|split].
    + intros k v Hk. by apply lookup_union_Some_l.
    + intros k Hk. by apply lookup_union_r.
    + intros Hdom. apply map_eq. intros k.
      destruct (realWorkspaceSettings (env s) !! k) as [v|] eqn:Hk.
      * by apply lookup_union_Some_l.
      * rewrite lookup_union_r by done.
        apply not_elem_of_dom. apply not_elem_of_dom in Hk. set_solver.
  - intros Hopen Hdirty. unfold step, closeWithoutSaving. rewrite Hdirty. done.
Qed.

Lemma settings_modal_open_edit_close_witness :
  let s := run (mounted sample_env) [] in
  let d := run (mounted sample_env) [Open; Change {[ "workspaceName" := JStr "x" ]}] in
  (isOpen s = false
   ∧ isOpen (step s Open) = true
   ∧ workspaceSettings (comp (step s Open)) = realWorkspaceSettings (env s))
  ∧ (isOpen d = true ∧ dirtyRef (comp d) = true
     ∧ step d (CloseWithoutSaving false) = d).
Proof.
  split.
  - destruct (settings_modal_open_edit_close sample_env []) as (Hopen & _).
    destruct (Hopen eq_refl) as (Ho & _ & _ & _ & _ & _ & Heq).
    split; [reflexivity|]. split; [exact Ho|]. apply Heq. reflexivity.
  - destruct (settings_modal_open_edit_close sample_env
                [Open; Change {[ "workspaceName" := JStr "x" ]}])
      as (_ & _ & _ & _ & Hclose & _).
    destruct (Hclose eq_refl eq_refl) as (_ & Hs).
    split; [reflexivity|]. split; [reflexivity|]. exact Hs.
Defined.

(** C8: the modal on the run open, edit the workspace name, Cancel with the
    confirmation accepted, open again, with committed settings that define no
    workspace name.  The reopened draft is marked clean and still holds the
    discarded name, so it is not the committed settings, and a save at once
    commits the discarded name.  And the dirty modal, dismissed through the
    dialog, closes with no confirmation asked. *)
Lemma settings_modal_reopen_keeps_discarded_field :
  let d := run (mounted sample_env) [Open; Change {[ "workspaceName" := JStr "x" ]}] in
  let s := run d [CloseWithoutSaving true; Open] in
  (isOpen s = true
   ∧ dirtyRef (comp s) = false
   ∧ realWorkspaceSettings (env s) !! "workspaceName" = None
   ∧ workspaceSettings (comp s) !! "workspaceName" = Some (JStr "x")
   ∧ workspaceSettings (comp s) ≠ realWorkspaceSettings (env s)
   ∧ head (saveAndClose (env s) (comp s))
     = Some (setRealWorkspaceSettings
               {[ "workspaceName" := JStr "x";
                  "defaultPermission" := JStr "READ_WRITE" ]}))
  ∧ (isOpen d = true ∧ dirtyRef (comp d) = true ∧ isOpen (step d Dismiss) = false).
Proof.
  split; [|by repeat split].
  split; [reflexivity|]. split; [reflexivity|]. split; [reflexivity|].
  split; [reflexivity|]. split; [|reflexivity].
  intros H. apply (f_equal (λ m : gmap string json, m !! "workspaceName")) in H.
  vm_compute in H. discriminate H.
Qed.

End SettingsModalProperties.

(** * Further properties of the code *)

(** ** The reference resolver *)

Lemma child_root_dash (s : string) :
  s ≠ EmptyString → has_slash s = false → child root ("-" +:+ s) = ["-" +:+ s].
Proof.
  intros Hs Hn. unfold child, root. simpl app.
  apply path_of_string_segment; [done|by rewrite append_cons, append_nil].
Qed.

(** The world a resolution of a slash-free identifier ends in. *)
Lemma fileIdAtom_write_resolution (pushKey : nat → string) (s : string)
    (flag : option bool) (w : World) :
  s ≠ EmptyString → has_slash s = false →
  same_id (baseFileIdAtom (atoms w)) (Some s) = false →
  fileIdAtom_write pushKey (Some {| newId := Some s; isNewFile_flag := flag |}) w
  = (Returned tt,
     with_atoms (put_firebaseRefAtom (Some ["-" +:+ s]))
       ((if default false flag
         then log (Navigate ("/" +:+ s +:+ search w) true) else λ w', w')
          (with_atoms (put_baseFileIdAtom
             (Some {| id := "-" +:+ s; isNewFile := default false flag |})) w))).
Proof.
  intros Hs Hn Hguard. unfold fileIdAtom_write. unfold_m.
  cbn -[String.append child truthy_string]. rewrite Hguard.
  rewrite (truthy_string_Some s Hs). cbn -[String.append child].
  rewrite (child_root_dash s Hs Hn).
  destruct (default false flag); reflexivity.
Qed.

(** X1: resolving a non-empty identifier that is a valid path without slash
    and is not the active one activates the reference [-<identifier>], records the flag,
    and, only when flagged as a new file, navigates to [/<identifier>]
    followed by the query string: the dash the key carries is taken off
    again.  No key is allocated and the store is left alone. *)
Theorem fileIdAtom_write_resolves (pushKey : nat → string) (s : string)
    (flag : option bool) (w : World) :
  s ≠ EmptyString → valid_path s = true → has_slash s = false →
  same_id (baseFileIdAtom (atoms w)) (Some s) = false →
  let m := fileIdAtom_write pushKey (Some {| newId := Some s; isNewFile_flag := flag |}) in
  outcome m w = Returned tt
  ∧ baseFileIdAtom (atoms (after m w))
    = Some {| id := "-" +:+ s; isNewFile := default false flag |}
  ∧ firebaseRefAtom (atoms (after m w)) = Some ["-" +:+ s]
  ∧ issued m w = (if default false flag
                  then [Navigate ("/" +:+ s +:+ search w) true] else [])
  ∧ pushed (after m w) = pushed w
  ∧ store (after m w) = store w.
Proof.
  intros Hs Hvalid Hn Hguard m. subst m. unfold issued; unfold outcome, after.
  rewrite (fileIdAtom_write_resolution pushKey s flag w Hs Hn Hguard).
  destruct (default false flag); cbn.
  - by rewrite drop_app_length.
  - by rewrite drop_all.
Qed.

Lemma fileIdAtom_write_resolves_witness :
  let m := fileIdAtom_write sample_pushKey
             (Some {| newId := Some "Mxyz"; isNewFile_flag := Some true |}) in
  let w := world_of (joined_atoms None) JNull in
  firebaseRefAtom (atoms (after m w)) = Some ["-Mxyz"]
  ∧ issued m w = [Navigate "/Mxyz" true].
Proof.
  destruct (fileIdAtom_write_resolves sample_pushKey "Mxyz" (Some true)
              (world_of (joined_atoms None) JNull))
    as (_ & _ & Hr & Hi & _); [done|reflexivity|reflexivity|reflexivity|].
  split; [exact Hr|exact Hi].
Defined.

Lemma fileIdAtom_guard_after_resolution_witness :
  let p := Some {| newId := Some "a/b"; isNewFile_flag := None |} in
  let w1 := after (fileIdAtom_write sample_pushKey p) (world_of no_atoms JNull) in
  same_id (baseFileIdAtom (atoms w1)) (Some "a/b") = false.
Proof.
  destruct (fileIdAtom_guard_after_resolution sample_pushKey "a/b" None
              (world_of no_atoms JNull)) as (_ & _ & Hg); [done|reflexivity|reflexivity|].
  exact Hg.
Defined.

(** X3: a resolution without identifier (null or empty) allocates the next
    unique key and activates it; done twice in a row it allocates twice, so
    the second call is no repetition of the first: with distinct keys the
    active identifier changes. *)
Theorem fileIdAtom_write_allocates (pushKey : nat → string) (p : Payload) (w : World) :
  truthy_string (newId p) = false →
  let m := fileIdAtom_write pushKey (Some p) in
  let w1 := after m w in
  let w2 := after m w1 in
  firebaseRefAtom (atoms w1) = Some [pushKey (pushed w)]
  ∧ baseFileIdAtom (atoms w1)
    = Some {| id := pushKey (pushed w); isNewFile := default false (isNewFile_flag p) |}
  ∧ pushed w1 = S (pushed w)
  ∧ firebaseRefAtom (atoms w2) = Some [pushKey (S (pushed w))]
  ∧ store w2 = store w
  ∧ (pushKey (pushed w) ≠ pushKey (S (pushed w)) →
     baseFileIdAtom (atoms w2) ≠ baseFileIdAtom (atoms w1)).
Proof.
  intros Hp m w1 w2. subst m w1 w2. unfold after, fileIdAtom_write. unfold_m.
  cbn -[String.append child truthy_string]. rewrite Hp, !andb_false_r.
  cbn -[String.append child truthy_string].
  destruct (default false (isNewFile_flag p)); cbn;
    (do 5 (split; [done|])); intros Hk [= H]; done.
Qed.

Lemma fileIdAtom_write_allocates_witness :
  let m := fileIdAtom_write sample_pushKey
             (Some {| newId := None; isNewFile_flag := None |}) in
  let w1 := after m (world_of no_atoms JNull) in
  firebaseRefAtom (atoms w1) = Some ["-Mkey0"]
  ∧ firebaseRefAtom (atoms (after m w1)) = Some ["-Mkey1"].
Proof.
  destruct (fileIdAtom_write_allocates sample_pushKey
              {| newId := None; isNewFile_flag := None |}
              (world_of no_atoms JNull) eq_refl) as (H1 & _ & _ & H2 & _).
  split; [exact H1|exact H2].
Defined.

(** X4: clearing the active file (a null payload) disables both join
    operations: after it each of them throws the error about the workspace
    reference, whatever the other atoms and the default permission are, and
    issues no effect. *)
Theorem clear_then_join_throws (pushKey : nat → string)
    (colorFromUserId : string → string) (w : World) :
  let w1 := after (fileIdAtom_write pushKey None) w in
  baseFileIdAtom (atoms w1) = None
  ∧ firebaseRefAtom (atoms w1) = None
  ∧ trace w1 = trace w
  ∧ joinNewWorkspaceAsOwnerAtom colorFromUserId w1 = (Thrown (Error ref_must_be_set), w1)
  ∧ joinExistingWorkspaceWithDefaultPermissionAtom colorFromUserId w1
    = (Thrown (Error ref_must_be_set), w1).
Proof.
  intros w1. subst w1.
  unfold joinNewWorkspaceAsOwnerAtom, joinExistingWorkspaceWithDefaultPermissionAtom,
    join_preconditions, fileIdAtom_write.
  unfold_m. cbn. repeat split.
Qed.

(** ** Join-as-owner *)

(** X5: an accepted join-as-owner changes nothing but the user's record and
    the default permission: every location of the store that parts ways with
    both [users/<userKey>] and [settings/defaultPermission] below the
    workspace, such as the records of other users, the other settings and
    the editors, keeps its value, and no atom changes. *)
Theorem joinNewWorkspaceAsOwnerAtom_frame (colorFromUserId : string → string) (w : World)
    (ref userRef : Reference) (userKey name : string) :
  Joinable (atoms w) ref userRef userKey name →
  has_slash userKey = false →
  writeError w ref = None →
  let m := joinNewWorkspaceAsOwnerAtom colorFromUserId in
  atoms (after m w) = atoms w
  ∧ ∀ q, diverge (ref ++ ["users"; userKey]) q →
         diverge (ref ++ ["settings"; "defaultPermission"]) q →
         get_path q (store (after m w)) = get_path q (store w).
Proof.
  intros Hj Hs Hw m. subst m. unfold after, joinNewWorkspaceAsOwnerAtom. unfold_m.
  rewrite (join_preconditions_ok w _ _ _ _ Hj). cbn -[String.append path_of_string].
  rewrite Hw. cbn -[String.append path_of_string]. split; [done|].
  intros q Hu Hd. unfold apply_update. cbn -[String.append path_of_string].
  rewrite path_users_key by (done || apply Hj).
  change (path_of_string "settings/defaultPermission")
    with ["settings"; "defaultPermission"].
  by rewrite !get_set_path_diverge.
Qed.

Lemma diverge_sibling (r : list string) (a b : string) (p q : list string) :
  a ≠ b → diverge (r ++ a :: p) (r ++ b :: q).
Proof. intros Hab. by exists r, a, b, p, q. Qed.

Lemma joinNewWorkspaceAsOwnerAtom_frame_witness :
  let m := joinNewWorkspaceAsOwnerAtom sample_color in
  let w := world_of (joined_atoms None)
             (sample_store (JObj {[ "name" := JStr "Bob" ]})) in
  get_path ["-abc"; "users"; "u1"; "name"] (store (after m w)) = JStr "Ann"
  ∧ get_path ["-abc"; "editor-cpp"] (store (after m w))
    = get_path ["-abc"; "editor-cpp"] (store w).
Proof.
  split; [reflexivity|].
  destruct (joinNewWorkspaceAsOwnerAtom_frame sample_color
    (world_of (joined_atoms None) (sample_store (JObj {[ "name" := JStr "Bob" ]})))
    ["-abc"] ["-abc"; "users"; "u1"] "u1" "Ann"
    (joined_atoms_joinable _ _) eq_refl eq_refl) as (_ & Hframe).
  apply Hframe.
  - apply (diverge_sibling ["-abc"] "users" "editor-cpp" ["u1"] []). done.
  - apply (diverge_sibling ["-abc"] "settings" "editor-cpp" ["defaultPermission"] []). done.
Defined.

(** ** The identity adapter and the join preconditions *)

(** X6: whatever the draw and the list of animals, a user who arrives leaves
    a non-empty user name in the session, so the name guard of the join
    operations passes; a departure (null) clears the name, after which
    join-as-owner throws one of its guard errors and changes nothing. *)
Theorem firebaseUserAtom_write_name_guard (animals : list string)
    (colorFromUserId : string → string) (random : Q) (w : World) :
  (∀ u, truthy_string
          (userNameAtom (atoms (after
             (firebaseUserAtom_write animals random (Some u)) w))) = true)
  ∧ (let w1 := after (firebaseUserAtom_write animals random None) w in
     baseFirebaseUserAtom (atoms w1) = None
     ∧ userNameAtom (atoms w1) = None
     ∧ ∃ msg, joinNewWorkspaceAsOwnerAtom colorFromUserId w1 = (Thrown (Error msg), w1)
              ∧ msg ∈ [ref_must_be_set; userRef_must_be_set; name_must_be_set]).
Proof.
  split.
  - intros u. unfold after, firebaseUserAtom_write. unfold_m.
    cbn -[random_index animal_at String.append truthy_string].
    destruct (truthy_string (displayName u)) eqn:Hd;
      cbn -[random_index animal_at String.append truthy_string]; [done|].
    by rewrite append_cons.
  - intros w1. split; [done|]. split; [done|].
    assert (Hm : Missing (atoms w1)) by (by do 3 right).
    destruct (join_preconditions_missing w1 Hm) as (msg & Hpre & Hmsg).
    exists msg. split; [|done].
    unfold joinNewWorkspaceAsOwnerAtom. unfold_m. by rewrite Hpre.
Qed.

(** ** Join-existing *)

(** What a run of join-existing can leave behind: the atoms as they were,
    and the store either as it was or with the one write to the user's
    record. *)
Lemma joinExisting_shape (colorFromUserId : string → string) (w : World) :
  let m := joinExistingWorkspaceWithDefaultPermissionAtom colorFromUserId in
  atoms (after m w) = atoms w
  ∧ (store (after m w) = store w
     ∨ ∃ userRef userKey name,
         userRefAtom (atoms w) = Some userRef
         ∧ (store (after m w)
            = apply_update userRef
                [("name", JStr name); ("color", JStr (colorFromUserId userKey))] (store w)
            ∨ store (after m w) = set_path (userRef ++ ["name"]) (JStr name) (store w))).
Proof.
  intros m. subst m. unfold after.
  destruct (joinable_or_missing (atoms w)) as [Hm|(ref & userRef & k & n & Hj)].
  { destruct (join_preconditions_missing w Hm) as (msg & Hpre & _).
    unfold joinExistingWorkspaceWithDefaultPermissionAtom. unfold_m. rewrite Hpre.
    cbn. by split; [|left]. }
  destruct (defaultPermissionAtom (atoms w)) as [p|] eqn:Hp.
  2: { unfold joinExistingWorkspaceWithDefaultPermissionAtom. unfold_m.
       rewrite Hp, (join_preconditions_ok w _ _ _ _ Hj). cbn. by split; [|left]. }
  rewrite (joinExisting_run _ w _ _ _ _ p Hj Hp).
  unfold on_snapshot, catch, mbind, M_bind, ref_once.
  destruct (readError w userRef) as [e|].
  { destruct (is_permission_denied e); cbn; by split; [|left]. }
  destruct (_ && _); [cbn; by split; [|left]|].
  destruct (negb (truthy _)).
  - unfold ref_update. cbn -[apply_update].
    destruct (writeError w userRef) as [e|].
    + destruct (is_permission_denied e); cbn; by split; [|left].
    + cbn -[apply_update]. split; [done|]. right. exists userRef, k, n.
      split; [apply Hj|]. by left.
  - destruct (negb (is_str _ _)); [|cbn; by split; [|left]].
    unfold ref_set, child. change (path_of_string "name") with ["name"]. cbn.
    destruct (writeError w (userRef ++ ["name"])) as [e|].
    + destruct (is_permission_denied e); cbn; by split; [|left].
    + cbn. split; [done|]. right. exists userRef, k, n.
      split; [apply Hj|]. by right.
Qed.

(** X7: join-existing, in every world and whatever its outcome, changes no
    atom and writes at most the [name] and [color] fields of the user's own
    record: every location that parts ways with both keeps its value, so the
    stored permission of the user, the records of other users and the
    workspace settings are never touched. *)
Theorem joinExisting_frame (colorFromUserId : string → string) (w : World)
    (q : list string) :
  (∀ userRef, userRefAtom (atoms w) = Some userRef →
     diverge (userRef ++ ["name"]) q ∧ diverge (userRef ++ ["color"]) q) →
  let m := joinExistingWorkspaceWithDefaultPermissionAtom colorFromUserId in
  atoms (after m w) = atoms w
  ∧ get_path q (store (after m w)) = get_path q (store w).
Proof.
  intros Hq m.
  destruct (joinExisting_shape colorFromUserId w) as (Ha & [Hs|Hs]); fold m in Ha, Hs.
  - by rewrite Hs.
  - destruct Hs as (userRef & k & n & Hu & [Hs|Hs]);
      destruct (Hq userRef Hu) as (Hn & Hc); rewrite Hs; (split; [done|]).
    + unfold apply_update. cbn -[path_of_string].
      change (path_of_string "name") with ["name"].
      change (path_of_string "color") with ["color"].
      by rewrite !get_set_path_diverge.
    + by rewrite get_set_path_diverge.
Qed.

Lemma joinExisting_frame_witness :
  let m := joinExistingWorkspaceWithDefaultPermissionAtom sample_color in
  let w := world_of (joined_atoms (Some READ_WRITE))
             (sample_store (JObj {[ "permission" := JStr "READ" ]})) in
  get_path ["-abc"; "users"; "u1"; "name"] (store (after m w)) = JStr "Ann"
  ∧ get_path ["-abc"; "users"; "u1"; "permission"] (store (after m w)) = JStr "READ".
Proof.
  split; [reflexivity|].
  destruct (joinExisting_frame sample_color
    (world_of (joined_atoms (Some READ_WRITE))
       (sample_store (JObj {[ "permission" := JStr "READ" ]})))
    ["-abc"; "users"; "u1"; "permission"]) as (_ & ->); [|reflexivity].
  intros userRef [= <-]. split.
  - apply (diverge_sibling ["-abc"; "users"; "u1"] "name" "permission" [] []). done.
  - apply (diverge_sibling ["-abc"; "users"; "u1"] "color" "permission" [] []). done.
Defined.

(** A run of join-existing that reads a record it has nothing to write to:
    the private-file case, or a stored name equal to the session name. *)
Lemma joinExisting_no_write (colorFromUserId : string → string) (w : World)
    (ref userRef : Reference) (userKey name : string) (p : Permission) :
  Joinable (atoms w) ref userRef userKey name →
  defaultPermissionAtom (atoms w) = Some p →
  readError w userRef = None →
  let snap := get_path userRef (store w) in
  (p = PRIVATE ∧ truthy (prop "permission" snap) = false) ∨ prop "name" snap = JStr name →
  joinExistingWorkspaceWithDefaultPermissionAtom colorFromUserId w
  = (Returned tt, log (StoreOnce userRef) w).
Proof.
  intros Hj Hp Hr snap Hcase.
  assert (Hname : name ≠ EmptyString) by apply Hj.
  rewrite (joinExisting_run _ w _ _ _ _ p Hj Hp).
  unfold on_snapshot, catch, mbind, M_bind, ref_once. rewrite Hr. fold snap.
  destruct (_ && _) eqn:Hcheck; [done|].
  destruct Hcase as [[-> Hperm]|Hn].
  - by rewrite Hperm in Hcheck.
  - rewrite Hn. cbn. rewrite String.eqb_refl.
    assert (String.eqb name "" = false) as -> by (by apply String.eqb_neq).
    done.
Qed.

(** The world an accepted run of join-existing ends in. *)
Lemma joinExisting_accepted (colorFromUserId : string → string) (w : World)
    (ref userRef : Reference) (userKey name : string) (p : Permission) :
  Joinable (atoms w) ref userRef userKey name →
  defaultPermissionAtom (atoms w) = Some p →
  readError w userRef = None →
  writeError w userRef = None →
  writeError w (userRef ++ ["name"]) = None →
  let snap := get_path userRef (store w) in
  let upd := [("name", JStr name); ("color", JStr (colorFromUserId userKey))] in
  joinExistingWorkspaceWithDefaultPermissionAtom colorFromUserId w
  = (Returned tt,
     if match p with PRIVATE => true | _ => false end
        && negb (truthy (prop "permission" snap))
     then log (StoreOnce userRef) w
     else if negb (truthy (prop "name" snap))
     then with_store (apply_update userRef upd)
            (log (StoreUpdate userRef upd) (log (StoreOnce userRef) w))
     else if negb (is_str name (prop "name" snap))
     then with_store (set_path (userRef ++ ["name"]) (JStr name))
            (log (StoreSet (userRef ++ ["name"]) (JStr name)) (log (StoreOnce userRef) w))
     else log (StoreOnce userRef) w).
Proof.
  intros Hj Hp Hr Hw Hwn snap upd.
  rewrite (joinExisting_run _ w _ _ _ _ p Hj Hp).
  unfold on_snapshot, catch, mbind, M_bind, ref_once. rewrite Hr. fold snap.
  destruct (_ && _); [done|].
  destruct (negb (truthy _)).
  - unfold ref_update. cbn -[apply_update]. by rewrite Hw.
  - destruct (negb (is_str _ _)); [|done].
    unfold ref_set, child. change (path_of_string "name") with ["name"]. cbn.
    by rewrite Hwn.
Qed.

Lemma prop_get_path (r : list string) (k : string) (t : json) :
  prop k (get_path r t) = get_path (r ++ [k]) t.
Proof. by rewrite get_path_app. Qed.

(** X8: join-existing is idempotent on the store.  After a run the store
    accepted, a second run with the same session only reads the user's
    record again: it issues no write, returns normally and leaves the store
    as the first run left it. *)
Theorem joinExisting_twice (colorFromUserId : string → string) (w : World)
    (ref userRef : Reference) (userKey name : string) (p : Permission) :
  Joinable (atoms w) ref userRef userKey name →
  defaultPermissionAtom (atoms w) = Some p →
  readError w userRef = None →
  writeError w userRef = None →
  writeError w (userRef ++ ["name"]) = None →
  let m := joinExistingWorkspaceWithDefaultPermissionAtom colorFromUserId in
  let w1 := after m w in
  outcome m w1 = Returned tt
  ∧ issued m w1 = [StoreOnce userRef]
  ∧ store (after m w1) = store w1.
Proof.
  intros Hj Hp Hr Hw Hwn m w1.
  assert (Hrun : m w1 = (Returned tt, log (StoreOnce userRef) w1)).
  { subst w1 m. unfold after.
    rewrite (joinExisting_accepted _ w _ _ _ _ p Hj Hp Hr Hw Hwn). cbn [snd].
    destruct (_ && _) eqn:Hcheck.
    - apply (joinExisting_no_write _ _ ref userRef userKey name p); try done.
      left. cbn [store log]. destruct p; try done. by destruct (truthy _).
    - destruct (negb (truthy (prop "name" _))) eqn:Hn.
      + apply (joinExisting_no_write _ _ ref userRef userKey name p); try done.
        right. cbn [store with_store log]. rewrite prop_get_path.
        unfold apply_update. cbn -[path_of_string].
        change (path_of_string "name") with ["name"].
        change (path_of_string "color") with ["color"].
        rewrite (get_set_path_sibling userRef [] []) by done.
        apply get_set_path_same.
      + destruct (negb (is_str _ _)) eqn:Hs.
        * apply (joinExisting_no_write _ _ ref userRef userKey name p); try done.
          right. cbn [store with_store log]. rewrite prop_get_path.
          apply get_set_path_same.
        * apply (joinExisting_no_write _ _ ref userRef userKey name p); try done.
          right. cbn [store log].
          apply negb_false_iff in Hs.
          destruct (prop "name" (get_path userRef (store w))) as [| | |t|]; try done.
          simpl in Hs. apply String.eqb_eq in Hs. by subst. }
  unfold issued; unfold outcome, after. rewrite Hrun. cbn.
  by rewrite drop_app_length.
Qed.

Lemma joinExisting_twice_witness :
  let m := joinExistingWorkspaceWithDefaultPermissionAtom sample_color in
  let w := world_of (joined_atoms (Some READ_WRITE)) (sample_store JNull) in
  issued m w = [StoreOnce ["-abc"; "users"; "u1"];
                StoreUpdate ["-abc"; "users"; "u1"]
                  [("name", JStr "Ann"); ("color", JStr "hsl(u1)")]]
  ∧ issued m (after m w) = [StoreOnce ["-abc"; "users"; "u1"]].
Proof.
  split; [reflexivity|].
  destruct (joinExisting_twice sample_color
    (world_of (joined_atoms (Some READ_WRITE)) (sample_store JNull))
    ["-abc"] ["-abc"; "users"; "u1"] "u1" "Ann" READ_WRITE
    (joined_atoms_joinable _ _) eq_refl eq_refl eq_refl eq_refl) as (_ & Hi & _).
  exact Hi.
Defined.

(** X9: join-as-owner followed by join-existing.  When the user reference is
    the workspace's [users/<userKey>] and the store accepted the owner's
    record, a join-existing that follows reads the record and writes nothing,
    whatever the default permission: the owner keeps the permission OWNER
    even in a workspace that is private by default. *)
Theorem joinNew_then_joinExisting (colorFromUserId : string → string) (w : World)
    (ref : Reference) (userKey name : string) (p : Permission) :
  Joinable (atoms w) ref (ref ++ ["users"; userKey]) userKey name →
  has_slash userKey = false →
  defaultPermissionAtom (atoms w) = Some p →
  writeError w ref = None →
  readError w (ref ++ ["users"; userKey]) = None →
  let w1 := after (joinNewWorkspaceAsOwnerAtom colorFromUserId) w in
  let m := joinExistingWorkspaceWithDefaultPermissionAtom colorFromUserId in
  outcome m w1 = Returned tt
  ∧ issued m w1 = [StoreOnce (ref ++ ["users"; userKey])]
  ∧ get_path (ref ++ ["users"; userKey; "permission"]) (store (after m w1)) = JStr "OWNER".
Proof.
  intros Hj Hs Hp Hw Hr w1 m.
  assert (Hw1 : w1 = with_store
            (apply_update ref
               [("users/" +:+ userKey, owner_record colorFromUserId name userKey);
                ("settings/defaultPermission", JStr "READ_WRITE")])
            (log (StoreUpdate ref
               [("users/" +:+ userKey, owner_record colorFromUserId name userKey);
                ("settings/defaultPermission", JStr "READ_WRITE")]) w)).
  { subst w1. unfold after, joinNewWorkspaceAsOwnerAtom. unfold_m.
    rewrite (join_preconditions_ok w _ _ _ _ Hj). cbn -[String.append path_of_string].
    by rewrite Hw. }
  assert (Hrec : get_path (ref ++ ["users"; userKey]) (store w1)
                 = owner_record colorFromUserId name userKey).
  { rewrite Hw1. cbn [store with_store log]. unfold apply_update.
    cbn -[String.append path_of_string].
    rewrite path_users_key by (done || apply Hj).
    change (path_of_string "settings/defaultPermission")
      with ["settings"; "defaultPermission"].
    rewrite (get_set_path_sibling ref ["defaultPermission"] [userKey]) by done.
    apply get_set_path_same. }
  assert (Hrun : m w1 = (Returned tt, log (StoreOnce (ref ++ ["users"; userKey])) w1)).
  { apply (joinExisting_no_write _ _ ref (ref ++ ["users"; userKey]) userKey name p).
    - by rewrite Hw1.
    - by rewrite Hw1.
    - by rewrite Hw1.
    - right. by rewrite Hrec. }
  unfold issued; unfold outcome, after. rewrite Hrun. cbn [fst snd trace log store].
  rewrite drop_app_length. split; [done|]. split; [done|].
  change (ref ++ ["users"; userKey; "permission"])
    with (ref ++ ["users"; userKey] ++ ["permission"]).
  by rewrite app_assoc, get_path_app, Hrec.
Qed.

Lemma joinNew_then_joinExisting_witness :
  let w := world_of (joined_atoms (Some PRIVATE)) (sample_store JNull) in
  let w1 := after (joinNewWorkspaceAsOwnerAtom sample_color) w in
  let m := joinExistingWorkspaceWithDefaultPermissionAtom sample_color in
  outcome m w1 = Returned tt
  ∧ issued m w1 = [StoreOnce ["-abc"; "users"; "u1"]].
Proof.
  destruct (joinNew_then_joinExisting sample_color
    (world_of (joined_atoms (Some PRIVATE)) (sample_store JNull))
    ["-abc"] "u1" "Ann" PRIVATE
    (joined_atoms_joinable _ _) eq_refl eq_refl eq_refl eq_refl) as (Ho & Hi & _).
  split; [exact Ho|exact Hi].
Defined.

(** X10: a write of join-existing that the store rejects.  The [catch] also
    covers the write: a rejection with code PERMISSION_DENIED is swallowed
    and the operation returns normally, any other rejection is rethrown; in
    both cases the one write was attempted and the store is unchanged. *)
Theorem joinExisting_write_rejected (colorFromUserId : string → string) (w : World)
    (ref userRef : Reference) (userKey name : string) (p : Permission) (e : JsError) :
  Joinable (atoms w) ref userRef userKey name →
  defaultPermissionAtom (atoms w) = Some p →
  readError w userRef = None →
  let snap := get_path userRef (store w) in
  (p = PRIVATE → truthy (prop "permission" snap) = true) →
  prop "name" snap ≠ JStr name →
  writeError w (if truthy (prop "name" snap) then userRef ++ ["name"] else userRef)
    = Some e →
  let m := joinExistingWorkspaceWithDefaultPermissionAtom colorFromUserId in
  store (after m w) = store w
  ∧ length (filter (λ x, is_write x = true) (issued m w)) = 1%nat
  ∧ (code e = Some "PERMISSION_DENIED" → outcome m w = Returned tt)
  ∧ (code e ≠ Some "PERMISSION_DENIED" → outcome m w = Thrown e).
Proof.
  intros Hj Hp Hr snap Hpast Hne He m. subst m.
  assert (Hcheck : (match p with PRIVATE => true | _ => false end
                    && negb (truthy (prop "permission" snap))) = false).
  { destruct p; try done. by rewrite Hpast. }
  assert (Hden : ∀ o : Outcome unit,
            (o = if is_permission_denied e then Returned tt else Thrown e) →
            (code e = Some "PERMISSION_DENIED" → o = Returned tt)
            ∧ (code e ≠ Some "PERMISSION_DENIED" → o = Thrown e)).
  { intros o ->. destruct (is_permission_denied e) eqn:Hd.
    - split; [done|]. intros Hc. by apply is_permission_denied_iff in Hd.
    - split; [|done]. intros Hc%is_permission_denied_iff. congruence. }
  unfold issued; unfold outcome, after.
  rewrite (joinExisting_run _ w _ _ _ _ p Hj Hp).
  unfold on_snapshot, catch, mbind, M_bind, ref_once. rewrite Hr. fold snap.
  rewrite Hcheck.
  destruct (truthy (prop "name" snap)) eqn:Ht; cbn [negb].
  - rewrite (is_str_ne _ _ Hne). cbn [negb].
    unfold ref_set, child. change (path_of_string "name") with ["name"]. cbn.
    rewrite He.
    destruct (is_permission_denied e) eqn:Hd; cbn;
      rewrite <- app_assoc, drop_app_length;
      (split; [done|]); (split; [done|]); by apply Hden.
  - unfold ref_update. cbn. rewrite He.
    destruct (is_permission_denied e) eqn:Hd; cbn;
      rewrite <- app_assoc, drop_app_length;
      (split; [done|]); (split; [done|]); by apply Hden.
Qed.

Lemma joinExisting_write_rejected_witness :
  let m := joinExistingWorkspaceWithDefaultPermissionAtom sample_color in
  let a := joined_atoms (Some READ) in
  let t := sample_store (JObj {[ "name" := JStr "Bob" ]}) in
  outcome m (unwritable_world denied a t) = Returned tt
  ∧ outcome m (unwritable_world unavailable a t) = Thrown unavailable
  ∧ store (after m (unwritable_world unavailable a t)) = t.
Proof.
  assert (Hne : prop "name" (get_path ["-abc"; "users"; "u1"]
                  (sample_store (JObj {[ "name" := JStr "Bob" ]}))) ≠ JStr "Ann").
  { intros H. vm_compute in H. discriminate H. }
  assert (Hpast : READ = PRIVATE → truthy (prop "permission"
            (get_path ["-abc"; "users"; "u1"]
               (sample_store (JObj {[ "name" := JStr "Bob" ]})))) = true).
  { intros [=]. }
  destruct (joinExisting_write_rejected sample_color
    (unwritable_world denied (joined_atoms (Some READ))
       (sample_store (JObj {[ "name" := JStr "Bob" ]})))
    ["-abc"] ["-abc"; "users"; "u1"] "u1" "Ann" READ denied)
    as (_ & _ & Hd & _); [by split|reflexivity|reflexivity|exact Hpast|exact Hne|reflexivity|].
  destruct (joinExisting_write_rejected sample_color
    (unwritable_world unavailable (joined_atoms (Some READ))
       (sample_store (JObj {[ "name" := JStr "Bob" ]})))
    ["-abc"] ["-abc"; "users"; "u1"] "u1" "Ann" READ unavailable)
    as (Hs & _ & _ & Hu); [by split|reflexivity|reflexivity|exact Hpast|exact Hne|reflexivity|].
  split; [by apply Hd|]. split; [by apply Hu|exact Hs].
Defined.

(** ** The copy flow: rejections and activation *)

(** All reads of a [Promise.all]: every read is issued; the result is the
    first rejection in list order, or the values. *)
Lemma promise_all_reads_outcome (rs : list Reference) (w : World) :
  promise_all (ref_once <$> rs) w
  = (match first_rejection (readError w) rs with
     | Some e => Thrown e
     | None => Returned ((λ r, get_path r (store w)) <$> rs)
     end, logs (StoreOnce <$> rs) w).
Proof.
  revert w. induction rs as [|r rs IH]; intros w; simpl; [done|].
  unfold ref_once at 1. destruct (readError w r) as [e|] eqn:He; rewrite IH; cbn.
  - done.
  - by destruct (first_rejection (readError w) rs).
Qed.

Lemma filter_reads_logged (rs : list Reference) :
  filter (λ e, is_read e = true) (StoreOnce <$> rs) = StoreOnce <$> rs
  ∧ filter (λ e, is_write e = true) (StoreOnce <$> rs) = [].
Proof.
  induction rs as [|r rs [IH1 IH2]]; [done|]. rewrite fmap_cons.
  rewrite filter_cons_True by done. rewrite filter_cons_False by done.
  by rewrite IH1, IH2.
Qed.

(** The run of the copy flow when the store rejects a read. *)
Lemma CopyFilePage_run_unread (pushKey : nat → string) (queryId : string) (w : World)
    (e : JsError) :
  String.length queryId = 19%nat →
  let oldRef := child root ("-" +:+ queryId) in
  first_rejection (readError w) (source_fields oldRef) = Some e →
  let w' := logs (StoreOnce <$> source_fields oldRef) (with_pushed (S (pushed w)) w) in
  CopyFilePage_effect pushKey (Some queryId) w
  = if is_permission_denied e
    then (Returned tt, with_permissionDenied true w')
    else (Thrown (Error (message e)),
          log (Alert ("Failed to clone file: " +:+ message e)) w').
Proof.
  intros Hlen oldRef He w'.
  unfold CopyFilePage_effect.
  rewrite Hlen. cbn [Nat.eqb negb]. fold oldRef.
  unfold catch, mbind, M_bind, ref_push.
  change ((λ k, ref_once (child oldRef k)) <$> keysToCopy)
    with (ref_once <$> source_fields oldRef).
  rewrite promise_all_reads_outcome.
  change (readError (with_pushed (S (pushed w)) w)) with (readError w).
  rewrite He. fold w'.
  by destruct (is_permission_denied e).
Qed.

Lemma first_rejection_elem (err : Reference → option JsError) (rs : list Reference)
    (e : JsError) :
  first_rejection err rs = Some e → ∃ r, r ∈ rs ∧ err r = Some e.
Proof.
  induction rs as [|r rs IH]; simpl; [done|].
  destruct (err r) as [e'|] eqn:He.
  - intros [= <-]. exists r. split; [left|done].
  - intros (r' & Hr' & He')%IH. exists r'. split; [by right|done].
Qed.

Lemma first_rejection_exists (err : Reference → option JsError) (rs : list Reference)
    (r : Reference) :
  r ∈ rs → err r ≠ None → ∃ e, first_rejection err rs = Some e.
Proof.
  induction rs as [|r' rs IH]; simpl; intros Hr Herr.
  - by apply elem_of_nil in Hr.
  - destruct (err r') as [e'|] eqn:He; [by exists e'|].
    apply elem_of_cons in Hr as [->|Hr]; [congruence|by apply IH].
Qed.

(** X11: the copy flow, on an identifier that is a valid path, when the
    store rejects at least one of the five reads.  All five reads are still
    issued and nothing is written; the atoms and the store are unchanged.
    When every rejection carries the code PERMISSION_DENIED the flow returns
    normally and the page switches to "This file is private."; when none
    does, the flow alerts "Failed to clone file: <message>" with the message
    of a rejected read and throws a new error with that message and no
    code. *)
Theorem CopyFilePage_read_rejected (pushKey : nat → string) (queryId : string)
    (w : World) :
  String.length queryId = 19%nat →
  valid_path queryId = true →
  let oldRef := child root ("-" +:+ queryId) in
  (∃ k, k ∈ keysToCopy ∧ readError w (oldRef ++ [k]) ≠ None) →
  let m := CopyFilePage_effect pushKey (Some queryId) in
  filter (λ x, is_read x = true) (issued m w) = StoreOnce <$> source_fields oldRef
  ∧ filter (λ x, is_write x = true) (issued m w) = []
  ∧ store (after m w) = store w
  ∧ atoms (after m w) = atoms w
  ∧ ((∀ k e, k ∈ keysToCopy → readError w (oldRef ++ [k]) = Some e →
        code e = Some "PERMISSION_DENIED") →
       outcome m w = Returned tt
       ∧ CopyFilePage_message (after m w) = "This file is private.")
  ∧ ((∀ k e, k ∈ keysToCopy → readError w (oldRef ++ [k]) = Some e →
        code e ≠ Some "PERMISSION_DENIED") →
       ∃ k e, k ∈ keysToCopy ∧ readError w (oldRef ++ [k]) = Some e
         ∧ outcome m w = Thrown (Error (message e))
         ∧ issued m w = (StoreOnce <$> source_fields oldRef)
                        ++ [Alert ("Failed to clone file: " +:+ message e)]
         ∧ permissionDenied (after m w) = permissionDenied w).
Proof.
  intros Hlen Hvalid oldRef (k0 & Hk0 & Hrej) m. subst m.
  destruct (first_rejection_exists (readError w) (source_fields oldRef) (oldRef ++ [k0]))
    as [e He]; [|done|].
  { apply list_elem_of_fmap. by exists k0. }
  destruct (first_rejection_elem _ _ _ He) as (r & Hr & Her).
  apply list_elem_of_fmap in Hr as (k & -> & Hk).
  unfold issued; unfold outcome, after.
  rewrite (CopyFilePage_run_unread pushKey queryId w e Hlen He).
  fold oldRef.
  destruct (logs_fields (StoreOnce <$> source_fields oldRef)
              (with_pushed (S (pushed w)) w)) as (Hs & _ & _ & Ha & _ & _ & Hp & Ht).
  destruct (filter_reads_logged (source_fields oldRef)) as (Hfr & Hfw).
  destruct (is_permission_denied e) eqn:Hd; cbn [fst snd].
  - cbn [trace store atoms with_permissionDenied].
    rewrite Ht, Hs, Ha. cbn [trace store atoms with_pushed].
    rewrite drop_app_length.
    split; [done|]. split; [done|]. split; [done|]. split; [done|].
    split; [done|]. intros Hall. apply is_permission_denied_iff in Hd.
    by destruct (Hall k e Hk Her).
  - cbn [trace store atoms permissionDenied log].
    rewrite Ht, Hs, Ha, Hp. cbn [trace store atoms permissionDenied with_pushed].
    rewrite <- app_assoc, drop_app_length, !filter_app, Hfr, Hfw.
    split; [by rewrite app_nil_r|]. split; [done|]. split; [done|]. split; [done|].
    split.
    + intros Hall. apply (Hall k e Hk) in Her.
      apply is_permission_denied_iff in Her. congruence.
    + intros _. by exists k, e.
Qed.

Lemma CopyFilePage_read_rejected_witness :
  let m := CopyFilePage_effect sample_pushKey (Some "Mabcdefghijklmnopqr") in
  outcome m (unreadable_world denied no_atoms copy_source) = Returned tt
  ∧ CopyFilePage_message (after m (unreadable_world denied no_atoms copy_source))
    = "This file is private."
  ∧ ∃ k e, k ∈ keysToCopy
      ∧ outcome m (unreadable_world unavailable no_atoms copy_source)
        = Thrown (Error (message e)).
Proof.
  assert (Hin : "input" ∈ keysToCopy) by (unfold keysToCopy; do 4 right; left).
  destruct (CopyFilePage_read_rejected sample_pushKey "Mabcdefghijklmnopqr"
              (unreadable_world denied no_atoms copy_source) eq_refl eq_refl)
    as (_ & _ & _ & _ & Hd & _).
  { exists "input". split; [exact Hin|]. intros [=]. }
  destruct (CopyFilePage_read_rejected sample_pushKey "Mabcdefghijklmnopqr"
              (unreadable_world unavailable no_atoms copy_source) eq_refl eq_refl)
    as (_ & _ & _ & _ & _ & Hu).
  { exists "input". split; [exact Hin|]. intros [=]. }
  destruct Hd as (Ho & Hm).
  { intros k e _ [= <-]. reflexivity. }
  destruct Hu as (k & e & Hk & _ & Hou & _).
  { intros k e _ [= <-] [=]. }
  split; [exact Ho|]. split; [exact Hm|]. by exists k, e.
Defined.

Lemma first_rejection_None (err : Reference → option JsError) (rs : list Reference) :
  first_rejection err rs = None ↔ ∀ r, r ∈ rs → err r = None.
Proof.
  induction rs as [|r rs IH]; simpl.
  - split; [|done]. intros _ r Hr. by apply elem_of_nil in Hr.
  - destruct (err r) eqn:He.
    + split; [done|]. intros H. specialize (H r). rewrite He in H. apply H. left.
    + rewrite IH. split.
      * intros H r' [->|Hr']%elem_of_cons; [done|by apply H].
      * intros H r' Hr'. apply H. by right.
Qed.

(** The run of the copy flow when the reads are accepted and the write of
    the new document is rejected. *)
Lemma CopyFilePage_run_unwritten (pushKey : nat → string) (queryId : string) (w : World)
    (e : JsError) :
  String.length queryId = 19%nat →
  let oldRef := child root ("-" +:+ queryId) in
  let newRef := [pushKey (pushed w)] in
  first_rejection (readError w) (source_fields oldRef) = None →
  writeError w newRef = Some e →
  let doc := updateObject ((λ r, get_path r (store w)) <$> source_fields oldRef) in
  let w' := log (StoreSet newRef doc)
              (logs (StoreOnce <$> source_fields oldRef) (with_pushed (S (pushed w)) w)) in
  CopyFilePage_effect pushKey (Some queryId) w
  = if is_permission_denied e
    then (Returned tt, with_permissionDenied true w')
    else (Thrown (Error (message e)),
          log (Alert ("Failed to clone file: " +:+ message e)) w').
Proof.
  intros Hlen oldRef newRef Hr Hw doc w'.
  unfold CopyFilePage_effect.
  rewrite Hlen. cbn [Nat.eqb negb]. fold oldRef.
  unfold catch, mbind, M_bind, ref_push. fold newRef.
  change ((λ k, ref_once (child oldRef k)) <$> keysToCopy)
    with (ref_once <$> source_fields oldRef).
  rewrite promise_all_reads_outcome.
  change (readError (with_pushed (S (pushed w)) w)) with (readError w).
  rewrite Hr. unfold ref_set.
  destruct (logs_fields (StoreOnce <$> source_fields oldRef)
              (with_pushed (S (pushed w)) w)) as (_ & _ & -> & _).
  change (root ++ newRef) with newRef.
  change (writeError (with_pushed (S (pushed w)) w) newRef) with (writeError w newRef).
  rewrite Hw. by destruct (is_permission_denied e).
Qed.

(** X12: the copy flow, on an identifier that is a valid path, when the five
    reads are accepted and the write of the new document is rejected.  The new reference is never activated: no atom
    changes, nothing is navigated to, the store is unchanged.  On
    PERMISSION_DENIED the page switches to "This file is private."; on any
    other code the flow alerts the message and throws. *)
Theorem CopyFilePage_write_rejected (pushKey : nat → string) (queryId : string)
    (w : World) (e : JsError) :
  String.length queryId = 19%nat →
  valid_path queryId = true →
  let oldRef := child root ("-" +:+ queryId) in
  let newRef := [pushKey (pushed w)] in
  first_rejection (readError w) (source_fields oldRef) = None →
  writeError w newRef = Some e →
  let m := CopyFilePage_effect pushKey (Some queryId) in
  atoms (after m w) = atoms w
  ∧ store (after m w) = store w
  ∧ (∃ doc, issued m w
        = (StoreOnce <$> source_fields oldRef) ++ [StoreSet newRef doc]
          ++ (if is_permission_denied e then []
              else [Alert ("Failed to clone file: " +:+ message e)]))
  ∧ (code e = Some "PERMISSION_DENIED" →
       outcome m w = Returned tt
       ∧ CopyFilePage_message (after m w) = "This file is private.")
  ∧ (code e ≠ Some "PERMISSION_DENIED" → outcome m w = Thrown (Error (message e))).
Proof.
  intros Hlen Hvalid oldRef newRef Hr Hw m. subst m.
  unfold issued; unfold outcome, after.
  rewrite (CopyFilePage_run_unwritten pushKey queryId w e Hlen Hr Hw).
  fold oldRef newRef.
  destruct (logs_fields (StoreOnce <$> source_fields oldRef)
              (with_pushed (S (pushed w)) w)) as (Hs & _ & _ & Ha & _ & _ & Hp & Ht).
  destruct (is_permission_denied e) eqn:Hd; cbn [fst snd].
  - cbn [trace store atoms with_permissionDenied log].
    rewrite Ht, Hs, Ha. cbn [trace store atoms with_pushed].
    rewrite <- app_assoc, drop_app_length.
    split; [done|]. split; [done|]. split; [by eexists|].
    split; [done|]. intros Hc. by apply is_permission_denied_iff in Hd.
  - cbn [trace store atoms permissionDenied log].
    rewrite Ht, Hs, Ha. cbn [trace store atoms with_pushed].
    rewrite <- !app_assoc, drop_app_length.
    split; [done|]. split; [done|]. split; [by eexists|].
    split; [|done]. intros Hc%is_permission_denied_iff. congruence.
Qed.

Lemma CopyFilePage_write_rejected_witness :
  let m := CopyFilePage_effect sample_pushKey (Some "Mabcdefghijklmnopqr") in
  let w := unwritable_world denied (joined_atoms None) copy_source in
  atoms (after m w) = joined_atoms None
  ∧ CopyFilePage_message (after m w) = "This file is private.".
Proof.
  destruct (CopyFilePage_write_rejected sample_pushKey "Mabcdefghijklmnopqr"
              (unwritable_world denied (joined_atoms None) copy_source) denied
              eq_refl eq_refl eq_refl eq_refl) as (Ha & _ & _ & Hd & _).
  destruct (Hd eq_refl) as (_ & Hm).
  split; [exact Ha|exact Hm].
Defined.

(** X13: an accepted copy activates what it wrote.  When the source
    identifier is a valid path and the allocated key is a dash followed by a
    non-empty identifier, a valid path without slash, that is not already
    active, the flow ends with the new reference as the active one,
    flagged as a new file, after one navigation to [/<identifier>] followed
    by the query string; the page stays on "Copying file...". *)
Theorem CopyFilePage_activates_copy (pushKey : nat → string) (queryId s : string)
    (w : World) :
  String.length queryId = 19%nat →
  valid_path queryId = true →
  let oldRef := child root ("-" +:+ queryId) in
  let newRef := [pushKey (pushed w)] in
  (∀ k, k ∈ keysToCopy → readError w (oldRef ++ [k]) = None) →
  writeError w newRef = None →
  pushKey (pushed w) = "-" +:+ s → s ≠ EmptyString →
  valid_path s = true → has_slash s = false →
  same_id (baseFileIdAtom (atoms w)) (Some s) = false →
  let m := CopyFilePage_effect pushKey (Some queryId) in
  firebaseRefAtom (atoms (after m w)) = Some newRef
  ∧ baseFileIdAtom (atoms (after m w))
    = Some {| id := pushKey (pushed w); isNewFile := true |}
  ∧ last (issued m w) = Some (Navigate ("/" +:+ s +:+ search w) true)
  ∧ permissionDenied (after m w) = permissionDenied w.
Proof.
  intros Hlen Hvalid oldRef newRef Hread Hwrite Hkey Hs Hvs Hn Hguard m. subst m.
  unfold issued; unfold after.
  rewrite (CopyFilePage_run pushKey queryId w Hlen Hread Hwrite).
  fold oldRef newRef. cbn [snd]. unfold after.
  set (reads := (λ k, StoreOnce (oldRef ++ [k])) <$> keysToCopy).
  destruct (logs_fields reads (with_pushed (S (pushed w)) w))
    as (Hst & _ & _ & Ha & _ & Hse & Hp & Ht).
  subst newRef. rewrite Hkey. change (drop_first ("-" +:+ s)) with s.
  rewrite fileIdAtom_write_resolution; [|done|done|].
  2: { cbn [atoms with_store log]. by rewrite Ha. }
  change (default false (Some true)) with true. cbn iota.
  cbn [snd atoms trace search permissionDenied with_atoms with_store log
       firebaseRefAtom baseFileIdAtom put_firebaseRefAtom put_baseFileIdAtom].
  rewrite Ht, Hse, Hp. cbn [trace search permissionDenied with_pushed].
  split; [done|]. split; [done|]. split; [|done].
  rewrite <- !app_assoc, drop_app_length. by rewrite !app_assoc, last_snoc.
Qed.

Lemma CopyFilePage_activates_copy_witness :
  let m := CopyFilePage_effect sample_pushKey (Some "Mabcdefghijklmnopqr") in
  let w := world_of no_atoms copy_source in
  firebaseRefAtom (atoms (after m w)) = Some ["-Mkey0"]
  ∧ last (issued m w) = Some (Navigate "/Mkey0" true).
Proof.
  destruct (CopyFilePage_activates_copy sample_pushKey "Mabcdefghijklmnopqr" "Mkey0"
              (world_of no_atoms copy_source) eq_refl eq_refl)
    as (Hr & _ & Hn & _); try done.
Defined.

Lemma toKeep_strips (v : json) :
  prop "users" (toKeep v) = JNull ∧ prop "defaultPermission" (toKeep v) = JNull.
Proof.
  unfold toKeep, prop.
  rewrite lookup_delete_eq, lookup_delete_ne by done.
  by rewrite lookup_delete_eq.
Qed.

(** X14: the document an accepted copy leaves at the new reference holds no
    user list and no default permission, neither at its top level nor inside
    any of the five copied fields, whatever the source holds there: the copy
    starts without members and without a permission policy. *)
Theorem CopyFilePage_copy_has_no_users (pushKey : nat → string) (queryId : string)
    (w : World) :
  String.length queryId = 19%nat →
  let oldRef := child root ("-" +:+ queryId) in
  let newRef := [pushKey (pushed w)] in
  (∀ k, k ∈ keysToCopy → readError w (oldRef ++ [k]) = None) →
  writeError w newRef = None →
  let t := store (after (CopyFilePage_effect pushKey (Some queryId)) w) in
  get_path (newRef ++ ["users"]) t = JNull
  ∧ get_path (newRef ++ ["settings"; "defaultPermission"]) t = JNull
  ∧ ∀ k, k ∈ keysToCopy →
      get_path (newRef ++ [k; "users"]) t = JNull
      ∧ get_path (newRef ++ [k; "defaultPermission"]) t = JNull.
Proof.
  intros Hlen oldRef newRef Hread Hwrite t. subst t. unfold after.
  rewrite (CopyFilePage_run pushKey queryId w Hlen Hread Hwrite).
  fold oldRef newRef. cbn [snd].
  set (data := (λ k, get_path (oldRef ++ [k]) (store w)) <$> keysToCopy).
  set (w' := with_store _ _).
  set (payload := Some _).
  destruct (fileIdAtom_write_quiet pushKey payload w') as (_ & -> & _).
  subst w'. cbn [store with_store].
  assert (Hdata : length data = 5%nat) by done.
  assert (Hk : ∀ k f, k ∈ keysToCopy → f = "users" ∨ f = "defaultPermission" →
            get_path (newRef ++ [k; f]) (set_path newRef (updateObject data)
              (store (log (StoreSet newRef (updateObject data))
                 (logs ((λ k, StoreOnce (oldRef ++ [k])) <$> keysToCopy)
                    (with_pushed (S (pushed w)) w))))) = JNull).
  { intros k f Hk Hf. rewrite get_path_app, get_set_path_same. cbn [get_path].
    apply list_elem_of_lookup in Hk as [i Hi].
    assert (Hv : data !! i = Some (get_path (oldRef ++ [k]) (store w))).
    { unfold data. by rewrite list_lookup_fmap, Hi. }
    pose proof (updateObject_lookup data k i _ Hi Hv Hdata) as Hl.
    rewrite prop_updateObject, Hl. cbn [default from_option].
    destruct (toKeep_strips (get_path (oldRef ++ [k]) (store w))) as (Hu & Hd).
    by destruct Hf as [->| ->]. }
  split; [|split].
  - rewrite get_path_app, get_set_path_same. cbn [get_path].
    rewrite prop_updateObject.
    destruct (fields (updateObject data) !! "users") as [v|] eqn:Hv; [|done].
    assert (Hin : "users" ∈ keysToCopy).
    { apply (updateObject_keys data "users" Hdata). by eexists. }
    unfold keysToCopy in Hin. rewrite !elem_of_cons, elem_of_nil in Hin.
    by destruct Hin as [?|[?|[?|[?|[?|[]]]]]].
  - apply Hk; [do 3 right; left|by right].
  - intros k Hin. split; apply Hk; auto.
Qed.

Lemma CopyFilePage_copy_has_no_users_witness :
  let t := store (after (CopyFilePage_effect sample_pushKey (Some "Mabcdefghijklmnopqr"))
                    (world_of no_atoms copy_source)) in
  get_path ["-Mabcdefghijklmnopqr"; "settings"; "users"; "u1"; "name"] copy_source
    = JStr "Ann"
  ∧ get_path ["-Mkey0"; "settings"; "users"] t = JNull
  ∧ get_path ["-Mkey0"; "editor-cpp"; "users"] t = JNull.
Proof.
  split; [reflexivity|].
  destruct (CopyFilePage_copy_has_no_users sample_pushKey "Mabcdefghijklmnopqr"
              (world_of no_atoms copy_source) eq_refl) as (_ & _ & Hk); [done|done|].
  split.
  - apply (Hk "settings"). unfold keysToCopy. do 3 right. left.
  - apply (Hk "editor-cpp"). unfold keysToCopy. left.
Defined.

(** ** The settings modal: closing, saving, commits from elsewhere *)

Section SettingsModalFurther.
Import SettingsModal.

Lemma run_snoc (s : System) (es : list Event) (ev : Event) :
  run s (es ++ [ev]) = step (run s es) ev.
Proof. unfold run. by rewrite foldl_app. Qed.

(** While the modal is open and only passive events arrive, it stays open
    and the component state changes in its tab at most. *)
Lemma run_passive (s : System) (es : list Event) :
  isOpen s = true → lastIsOpen (comp s) = Some true →
  forallb passive es = true →
  let s' := run s es in
  isOpen s' = true ∧ lastIsOpen (comp s') = Some true
  ∧ dirtyRef (comp s') = dirtyRef (comp s)
  ∧ workspaceSettings (comp s') = workspaceSettings (comp s)
  ∧ name (comp s') = name (comp s)
  ∧ editorMode (comp s') = editorMode (comp s).
Proof.
  intros Ho Hl. induction es as [|ev es IH] using rev_ind; intros Hp s'; [done|].
  subst s'. rewrite run_snoc.
  rewrite forallb_app in Hp. apply andb_true_iff in Hp as [Hes Hev].
  destruct (IH Hes) as (Ho' & Hl' & Hd & Hw & Hn & Hm).
  simpl in Hev. rewrite andb_true_r in Hev.
  destruct ev; try done; simpl.
  rewrite Ho'. rewrite render_same by done. done.
Qed.

(** X15: a modal that was opened and not edited closes without asking.  From
    any reachable closed state, after the opening and any number of tab
    changes and of new committed settings, [closeWithoutSaving] closes the
    modal whatever [confirm] would answer. *)
Theorem settings_modal_clean_close (e : Env) (events passives : list Event)
    (confirm : bool) :
  let s := run (mounted e) events in
  isOpen s = false →
  forallb passive passives = true →
  let s' := run (step s Open) passives in
  isOpen s' = true
  ∧ dirtyRef (comp s') = false
  ∧ closeWithoutSaving confirm (comp s') = [onClose]
  ∧ isOpen (step s' (CloseWithoutSaving confirm)) = false.
Proof.
  intros s Hclosed Hp s'.
  pose proof (run_lastIsOpen e events) as Hinv. fold s in Hinv. rewrite Hclosed in Hinv.
  assert (Hopen : isOpen (step s Open) = true) by done.
  assert (Hlast : lastIsOpen (comp (step s Open)) = Some true)
    by apply render_lastIsOpen.
  assert (Hdirty : dirtyRef (comp (step s Open)) = false).
  { simpl. unfold render. by rewrite Hinv. }
  destruct (run_passive (step s Open) passives Hopen Hlast Hp)
    as (Ho & _ & Hd & _). fold s' in Ho, Hd.
  rewrite Hdirty in Hd.
  split; [done|]. split; [done|].
  unfold step, closeWithoutSaving. rewrite Hd. by split.
Qed.

Lemma settings_modal_clean_close_witness :
  let s' := run (step (run (mounted sample_env) []) Open)
              [SetTab user; Committed ∅; SetTab judge] in
  isOpen s' = true ∧ isOpen (step s' (CloseWithoutSaving false)) = false.
Proof.
  destruct (settings_modal_clean_close sample_env []
              [SetTab user; Committed ∅; SetTab judge] false eq_refl eq_refl)
    as (Ho & _ & _ & Hc).
  split; [exact Ho|exact Hc].
Defined.

(** X16: settings committed from elsewhere while the modal is open do not
    reach the draft: the component state is unchanged by them, and a save
    that follows hands the draft as it is to [setRealWorkspaceSettings],
    first of all its calls, and ends with [onClose]. *)
Theorem settings_modal_commit_while_open (e : Env) (events : list Event)
    (ws : WorkspaceSettings) :
  let s := run (mounted e) events in
  isOpen s = true →
  let s' := step s (Committed ws) in
  realWorkspaceSettings (env s') = ws
  ∧ comp s' = comp s
  ∧ head (saveAndClose (env s') (comp s'))
    = Some (setRealWorkspaceSettings (workspaceSettings (comp s)))
  ∧ last (saveAndClose (env s') (comp s')) = Some onClose.
Proof.
  intros s Hopen s'.
  pose proof (run_lastIsOpen e events) as Hinv. fold s in Hinv. rewrite Hopen in Hinv.
  assert (Hcomp : comp s' = comp s).
  { subst s'. simpl. rewrite Hopen. by apply render_same. }
  split; [done|]. split; [done|]. rewrite Hcomp. split; [done|].
  unfold saveAndClose. by rewrite !app_assoc, last_snoc.
Qed.

Lemma settings_modal_commit_while_open_witness :
  let s := run (mounted sample_env) [Open; Change {[ "workspaceName" := JStr "x" ]}] in
  let s' := step s (Committed {[ "workspaceName" := JStr "y" ]}) in
  workspaceSettings (comp s') !! "workspaceName" = Some (JStr "x")
  ∧ realWorkspaceSettings (env s') !! "workspaceName" = Some (JStr "y").
Proof.
  destruct (settings_modal_commit_while_open sample_env
              [Open; Change {[ "workspaceName" := JStr "x" ]}]
              {[ "workspaceName" := JStr "y" ]} eq_refl) as (He & Hc & _).
  split.
  - rewrite Hc. reflexivity.
  - rewrite He. reflexivity.
Defined.

(** X17: opening the modal and saving at once, for a signed-in user with a
    non-empty display name.  The save makes exactly three calls: it commits
    the merged draft, sets the editor mode to its committed value, and
    closes; the name is neither sent to the identity provider nor written to
    the store nor set in the session. *)
Theorem settings_modal_open_then_save (e : Env) (events : list Event) (u : User) :
  let s := run (mounted e) events in
  isOpen s = false →
  firebaseUser (env s) = Some u →
  truthy_string (displayName u) = true →
  let s' := step s Open in
  saveAndClose (env s') (comp s')
  = [setRealWorkspaceSettings
       (realWorkspaceSettings (env s) ∪ workspaceSettings (comp s));
     setEditorModeAtom (editorModeAtom (env s));
     onClose].
Proof.
  intros s Hclosed Hu Ht s'.
  pose proof (run_lastIsOpen e events) as Hinv. fold s in Hinv. rewrite Hclosed in Hinv.
  subst s'. simpl. unfold render. rewrite Hinv. simpl.
  unfold saveAndClose. simpl. rewrite Hu. simpl. rewrite Ht.
  destruct (displayName u) as [n|]; [|done]. simpl. by rewrite String.eqb_refl.
Qed.

Lemma settings_modal_open_then_save_witness :
  saveAndClose sample_env (comp (step (run (mounted sample_env) []) Open))
  = [setRealWorkspaceSettings {[ "defaultPermission" := JStr "READ_WRITE" ]};
     setEditorModeAtom "Vim"; onClose].
Proof.
  exact (settings_modal_open_then_save sample_env []
           {| uid := "u1"; displayName := Some "Ann" |} eq_refl eq_refl eq_refl).
Defined.

(** X18: saving a changed name with and without access.  The modal writes
    the name to the store through the permission-gated user reference: with
    permission PRIVATE or unset the name goes to the identity provider and
    to the session only, with OWNER, READ_WRITE or READ (read-only included)
    it is also set at the [name] field of the user's record. *)
Theorem settings_modal_rename_gated (a : Atoms) (e : Env) (st : State) (u : User) :
  firebaseUser e = Some u →
  same_name (name st) (displayName u) = false →
  userRef e = authenticatedUserRefAtom a →
  (actualUserPermissionAtom a ∈ [Some PRIVATE; None] →
     saveAndClose e st
     = [setRealWorkspaceSettings (workspaceSettings st);
        setEditorModeAtom (editorMode st);
        updateProfile (name st); setUserNameAtom (name st); onClose])
  ∧ (∀ r, userRefAtom a = Some r →
       actualUserPermissionAtom a ∈ [Some OWNER; Some READ_WRITE; Some READ] →
       saveAndClose e st
       = [setRealWorkspaceSettings (workspaceSettings st);
          setEditorModeAtom (editorMode st);
          updateProfile (name st); setStoredName (r ++ ["name"]) (name st);
          setUserNameAtom (name st); onClose]).
Proof.
  intros Hu Hn Hr. unfold saveAndClose. rewrite Hu, Hn, Hr.
  unfold authenticatedUserRefAtom. split.
  - rewrite !elem_of_cons, elem_of_nil. intros [->|[->|[]]]; reflexivity.
  - intros r Ha. rewrite !elem_of_cons, elem_of_nil, Ha.
    intros [->|[->|[->|[]]]]; reflexivity.
Qed.

Lemma settings_modal_rename_gated_witness :
  let st := onNameChange "Bea" (initial sample_env) in
  saveAndClose sample_env st
  = [setRealWorkspaceSettings {[ "defaultPermission" := JStr "READ_WRITE" ]};
     setEditorModeAtom "Normal";
     updateProfile (Some "Bea");
     setStoredName ["-abc"; "users"; "u1"; "name"] (Some "Bea");
     setUserNameAtom (Some "Bea"); onClose].
Proof.
  destruct (settings_modal_rename_gated (joined_atoms (Some READ)) sample_env
              (onNameChange "Bea" (initial sample_env))
              {| uid := "u1"; displayName := Some "Ann" |} eq_refl eq_refl eq_refl)
    as (_ & Hw).
  apply (Hw ["-abc"; "users"; "u1"] eq_refl). simpl. right. right. left.
Defined.

End SettingsModalFurther.

(** ** Join-existing: stored values that are not names *)

(** X19: past the private-file check, a stored name that is falsy (absent,
    null, the empty string, zero, false) counts as no name: join-existing
    updates the record with the session name and the color of the user key,
    and an accepted update leaves both in the record. *)
Theorem joinExisting_falsy_name (colorFromUserId : string → string) (w : World)
    (ref userRef : Reference) (userKey name : string) (p : Permission) :
  Joinable (atoms w) ref userRef userKey name →
  defaultPermissionAtom (atoms w) = Some p →
  readError w userRef = None →
  writeError w userRef = None →
  let snap := get_path userRef (store w) in
  (p = PRIVATE → truthy (prop "permission" snap) = true) →
  truthy (prop "name" snap) = false →
  let m := joinExistingWorkspaceWithDefaultPermissionAtom colorFromUserId in
  outcome m w = Returned tt
  ∧ issued m w =
      [StoreOnce userRef;
       StoreUpdate userRef [("name", JStr name); ("color", JStr (colorFromUserId userKey))]]
  ∧ get_path (userRef ++ ["name"]) (store (after m w)) = JStr name
  ∧ get_path (userRef ++ ["color"]) (store (after m w)) = JStr (colorFromUserId userKey).
Proof.
  intros Hj Hp Hr Hw snap Hpast Hf m. subst m.
  assert (Hcheck : (match p with PRIVATE => true | _ => false end
                    && negb (truthy (prop "permission" snap))) = false).
  { destruct p; try done. by rewrite Hpast. }
  unfold issued; unfold outcome, after.
  rewrite (joinExisting_run _ w _ _ _ _ p Hj Hp).
  unfold on_snapshot, catch, mbind, M_bind, ref_once. rewrite Hr. fold snap.
  rewrite Hcheck, Hf. cbn [negb]. unfold ref_update. cbn -[path_of_string apply_update].
  rewrite Hw. cbn -[path_of_string apply_update].
  rewrite <- app_assoc, drop_app_length.
  split; [done|]. split; [done|].
  unfold apply_update. cbn -[path_of_string].
  change (path_of_string "name") with ["name"].
  change (path_of_string "color") with ["color"].
  split; [|apply get_set_path_same].
  rewrite (get_set_path_sibling userRef [] []) by done. apply get_set_path_same.
Qed.

Lemma joinExisting_falsy_name_witness :
  let m := joinExistingWorkspaceWithDefaultPermissionAtom sample_color in
  let w := world_of (joined_atoms (Some READ))
             (sample_store (JObj {[ "name" := JStr "" ]})) in
  get_path ["-abc"; "users"; "u1"; "name"] (store w) = JStr ""
  ∧ get_path ["-abc"; "users"; "u1"; "name"] (store (after m w)) = JStr "Ann"
  ∧ get_path ["-abc"; "users"; "u1"; "color"] (store (after m w)) = JStr "hsl(u1)".
Proof.
  split; [reflexivity|].
  destruct (joinExisting_falsy_name sample_color
    (world_of (joined_atoms (Some READ)) (sample_store (JObj {[ "name" := JStr "" ]})))
    ["-abc"] ["-abc"; "users"; "u1"] "u1" "Ann" READ
    (joined_atoms_joinable _ _) eq_refl eq_refl eq_refl) as (_ & _ & Hn & Hc).
  { intros [=]. }
  { reflexivity. }
  split; [exact Hn|exact Hc].
Defined.
